(** * apps/common/utils/crypto.py: codecs and the fallback facade

  A shallow embedding of the module [apps/common/utils/crypto.py]:
  the ECB codec [AESCrypto], the GCM codec [AESCryptoGCM], the factory
  [get_aes_crypto] and the facade [Crypto].

  Python values are modelled as follows.
  - [bytes] is [list byte];
  - [str] is a list of code points ([list N]);
  - a call that may raise returns a [result]: [Ok v] or [Raise e];
  - a dict is an association list in insertion order;
  - the AES primitives of pycryptodome and the random generator are the
    fields of a class [Primitives], and the laws the library guarantees
    are the class [PrimitivesLaws]; what the Python standard library
    does (UTF-8, base64) and [Crypto.Util.Padding.pad] are defined. *)

From Stdlib Require Import List Arith NArith ZArith Lia ZifyNat Bool.
From Stdlib Require Import Permutation.
From Stdlib.Strings Require String.
From Stdlib.Strings Require Import Byte.
Import ListNotations.
Import String.StringSyntax.
Delimit Scope string_scope with string.

Set Implicit Arguments.

Local Open Scope N_scope.

(* ================================================================= *)
(** ** Python: exceptions and results *)

Module Py.

(** The exception classes the module can meet.  [OtherError] stands for
    any class that derives directly from [Exception]. *)
Inductive exn : Type :=
| TypeError
| ValueError
| UnicodeError
| UnicodeDecodeError
| UnicodeEncodeError
| binascii_Error
| NameError
| UnboundLocalError
| LookupError
| IndexError
| ImproperlyConfigured
| OtherError (name : String.string).

Definition exn_eqb (a b : exn) : bool :=
  match a, b with
  | TypeError, TypeError
  | ValueError, ValueError
  | UnicodeError, UnicodeError
  | UnicodeDecodeError, UnicodeDecodeError
  | UnicodeEncodeError, UnicodeEncodeError
  | binascii_Error, binascii_Error
  | NameError, NameError
  | UnboundLocalError, UnboundLocalError
  | LookupError, LookupError
  | IndexError, IndexError
  | ImproperlyConfigured, ImproperlyConfigured => true
  | OtherError x, OtherError y => String.eqb x y
  | _, _ => false
  end.

(** The direct base class, [None] when it is [Exception]. *)
Definition base (e : exn) : option exn :=
  match e with
  | UnicodeError => Some ValueError
  | UnicodeDecodeError => Some UnicodeError
  | UnicodeEncodeError => Some UnicodeError
  | binascii_Error => Some ValueError
  | UnboundLocalError => Some NameError
  | IndexError => Some LookupError
  | _ => None
  end.

Fixpoint issubclass_upto (depth : nat) (e cls : exn) : bool :=
  exn_eqb e cls ||
  match depth with
  | O => false
  | S d => match base e with
           | Some p => issubclass_upto d p cls
           | None => false
           end
  end.

(** [isinstance e cls]: the hierarchy above has depth two. *)
Definition isinstance (e cls : exn) : bool := issubclass_upto 2 e cls.

Inductive result (A : Type) : Type :=
| Ok (v : A)
| Raise (e : exn).
Arguments Ok {A} v.
Arguments Raise {A} e.

Definition bind {A B} (m : result A) (k : A -> result B) : result B :=
  match m with
  | Ok v => k v
  | Raise e => Raise e
  end.

End Py.

Import Py.

Notation "'let*' x ':=' m 'in' k" := (Py.bind m (fun x => k))
  (at level 10, x name, m at level 100, k at level 200).

Abbreviation bytes := (list byte).
Abbreviation str := (list N).

(* ================================================================= *)
(** ** Bytes *)

(** [bchr n]: the byte of value [n] (taken modulo 256). *)
Definition bchr (n : N) : byte :=
  match Byte.of_N (n mod 256) with
  | Some b => b
  | None => x00
  end.

Definition ord (b : byte) : N := Byte.to_N b.

(** [bytes.rstrip(b'\0')] *)
Fixpoint rstrip0 (l : bytes) : bytes :=
  match l with
  | [] => []
  | b :: r =>
    match rstrip0 r with
    | [] => if ord b =? 0 then [] else [b]
    | r' => b :: r'
    end
  end.

(** A Python slice [l[i:j]] with [0 <= i <= j]. *)
Definition slice {A} (i j : nat) (l : list A) : list A :=
  firstn (j - i) (skipn i l).

(* ================================================================= *)
(** ** UTF-8, as [bytes(text, encoding='utf8')] and [bytes.decode('utf8')] *)

Module Utf8.

Definition encode_cp (c : N) : result bytes :=
  if c <? 0x80 then Ok [bchr c]
  else if c <? 0x800 then Ok [bchr (0xC0 + c / 64); bchr (0x80 + c mod 64)]
  else if c <? 0x10000 then
    if (0xD800 <=? c) && (c <=? 0xDFFF) then Raise UnicodeEncodeError
    else Ok [bchr (0xE0 + c / 4096); bchr (0x80 + (c / 64) mod 64);
             bchr (0x80 + c mod 64)]
  else if c <=? 0x10FFFF then
    Ok [bchr (0xF0 + c / 262144); bchr (0x80 + (c / 4096) mod 64);
        bchr (0x80 + (c / 64) mod 64); bchr (0x80 + c mod 64)]
  else Raise UnicodeEncodeError.

Fixpoint encode (s : str) : result bytes :=
  match s with
  | [] => Ok []
  | c :: r =>
    let* b := encode_cp c in
    let* br := encode r in
    Ok (b ++ br)
  end.

(** A continuation byte, 0x80..0xBF. *)
Definition is_cont (b : byte) : bool :=
  (0x80 <=? ord b) && (ord b <? 0xC0).

Definition cons_cp (c : N) (m : result str) : result str :=
  let* r := m in Ok (c :: r).

Fixpoint decode (l : bytes) : result str :=
  match l with
  | [] => Ok []
  | b0 :: l1 =>
    let n0 := ord b0 in
    if n0 <? 0x80 then cons_cp n0 (decode l1)
    else if n0 <? 0xC2 then Raise UnicodeDecodeError
    else if n0 <? 0xE0 then
      match l1 with
      | b1 :: l2 =>
        if is_cont b1
        then cons_cp ((n0 - 0xC0) * 64 + (ord b1 - 0x80)) (decode l2)
        else Raise UnicodeDecodeError
      | _ => Raise UnicodeDecodeError
      end
    else if n0 <? 0xF0 then
      match l1 with
      | b1 :: b2 :: l3 =>
        let c := (n0 - 0xE0) * 4096 + (ord b1 - 0x80) * 64 + (ord b2 - 0x80) in
        if is_cont b1 && is_cont b2 && (0x800 <=? c)
           && negb ((0xD800 <=? c) && (c <=? 0xDFFF))
        then cons_cp c (decode l3)
        else Raise UnicodeDecodeError
      | _ => Raise UnicodeDecodeError
      end
    else if n0 <? 0xF5 then
      match l1 with
      | b1 :: b2 :: b3 :: l4 =>
        let c := (n0 - 0xF0) * 262144 + (ord b1 - 0x80) * 4096
                 + (ord b2 - 0x80) * 64 + (ord b3 - 0x80) in
        if is_cont b1 && is_cont b2 && is_cont b3
           && (0x10000 <=? c) && (c <=? 0x10FFFF)
        then cons_cp c (decode l4)
        else Raise UnicodeDecodeError
      | _ => Raise UnicodeDecodeError
      end
    else Raise UnicodeDecodeError
  end.

(** [s.encode('ascii')]: every code point below 128. *)
Fixpoint encode_ascii (s : str) : result bytes :=
  match s with
  | [] => Ok []
  | c :: r =>
    if c <? 0x80
    then let* br := encode_ascii r in Ok (bchr c :: br)
    else Raise UnicodeEncodeError
  end.

End Utf8.

(* ================================================================= *)
(** ** base64, as the modules [binascii] and [base64] of CPython *)

Module Base64.

(** [table_b2a_base64]: the character of a 6-bit value. *)
Definition b2a_char (i : N) : byte :=
  if i <? 26 then bchr (65 + i)
  else if i <? 52 then bchr (71 + i)
  else if i <? 62 then bchr (i - 4)
  else if i =? 62 then "+"%byte
  else "/"%byte.

(** [table_a2b_base64]: the 6-bit value of a character of the alphabet. *)
Definition a2b_char (b : byte) : option N :=
  let n := ord b in
  if (65 <=? n) && (n <=? 90) then Some (n - 65)
  else if (97 <=? n) && (n <=? 122) then Some (n - 71)
  else if (48 <=? n) && (n <=? 57) then Some (n + 4)
  else if n =? 43 then Some 62
  else if n =? 47 then Some 63
  else None.

Definition PAD : byte := "="%byte.
Definition NL : byte := x0a.

(** [binascii.b2a_base64(data, newline=False)], three bytes at a time. *)
Fixpoint b2a (l : bytes) : bytes :=
  match l with
  | [] => []
  | [a] =>
    [b2a_char (ord a / 4); b2a_char ((ord a mod 4) * 16); PAD; PAD]
  | [a; b] =>
    [b2a_char (ord a / 4); b2a_char ((ord a mod 4) * 16 + ord b / 16);
     b2a_char ((ord b mod 16) * 4); PAD]
  | a :: b :: c :: r =>
    b2a_char (ord a / 4)
    :: b2a_char ((ord a mod 4) * 16 + ord b / 16)
    :: b2a_char ((ord b mod 16) * 4 + ord c / 64)
    :: b2a_char (ord c mod 64)
    :: b2a r
  end.

Definition emit (b : byte) (m : result bytes) : result bytes :=
  let* r := m in Ok (b :: r).

(** [binascii.a2b_base64(data)] with [strict_mode=False], the loop of
    CPython 3.11 and later: characters outside the alphabet are skipped,
    a complete pad sequence ends the parse, and a quad left open at the
    end of the input is an error.  The bits of the last character of a
    padded quad that belong to no byte are not looked at. *)
Fixpoint a2b_loop (l : bytes) (quad_pos leftchar pads : N) : result bytes :=
  match l with
  | [] => if quad_pos =? 0 then Ok [] else Raise binascii_Error
  | ch :: r =>
    if ord ch =? ord PAD then
      if (2 <=? quad_pos) && (4 <=? quad_pos + (pads + 1)) then Ok []
      else a2b_loop r quad_pos leftchar
                    (if 2 <=? quad_pos then pads + 1 else pads)
    else
      match a2b_char ch with
      | None => a2b_loop r quad_pos leftchar pads
      | Some v =>
        if quad_pos =? 0 then a2b_loop r 1 v 0
        else if quad_pos =? 1 then
          emit (bchr (leftchar * 4 + v / 16)) (a2b_loop r 2 (v mod 16) 0)
        else if quad_pos =? 2 then
          emit (bchr (leftchar * 16 + v / 4)) (a2b_loop r 3 (v mod 4) 0)
        else
          emit (bchr (leftchar * 64 + v)) (a2b_loop r 0 0 0)
      end
  end.

Definition a2b (l : bytes) : result bytes := a2b_loop l 0 0 0.

(** [base64.b64encode(s)] *)
Definition b64encode (s : bytes) : bytes := b2a s.

(** [base64.b64decode(s)] for a [str] argument: the string is encoded as
    ASCII first, and a failure there is a [ValueError]. *)
Definition b64decode (s : str) : result bytes :=
  match Utf8.encode_ascii s with
  | Ok b => a2b b
  | Raise _ => Raise ValueError
  end.

Definition MAXBINSIZE : nat := 57.

(** [s[i : i + MAXBINSIZE] for i in range(0, len(s), MAXBINSIZE)] *)
Fixpoint chunks (fuel : nat) (s : bytes) : list bytes :=
  match fuel with
  | O => []
  | S f =>
    match s with
    | [] => []
    | _ => firstn MAXBINSIZE s :: chunks f (skipn MAXBINSIZE s)
    end
  end.

(** [base64.encodebytes(s)]: each chunk encoded with its newline. *)
Definition encodebytes (s : bytes) : bytes :=
  concat (map (fun chunk => b2a chunk ++ [NL]) (chunks (length s) s)).

(** [base64.decodebytes(s)] *)
Definition decodebytes (s : bytes) : result bytes := a2b s.

End Base64.

(** [text.replace('\n', '')] *)
Definition remove_newlines (s : str) : str :=
  filter (fun c => negb (c =? 10)) s.

(* ================================================================= *)
(** ** [Crypto.Util.Padding.pad] *)

(** [pad(data_to_pad, block_size)] with its default style, pkcs7:
    [padding_len = block_size - len(data_to_pad) % block_size] bytes,
    each of value [padding_len]. *)
Definition pad (data_to_pad : bytes) (block_size : nat) : bytes :=
  let padding_len := (block_size - length data_to_pad mod block_size)%nat in
  data_to_pad ++ repeat (bchr (N.of_nat padding_len)) padding_len.

(* ================================================================= *)
(** ** pycryptodome: AES and the random generator *)

(** The primitives the module imports, which it treats as black boxes:
    the raw ECB transformation, the counter-mode transformation and the
    tag of GCM, and [Crypto.Random.get_random_bytes] over the state of
    the generator. *)
Class Primitives : Type := {
  ecb_encrypt_raw : bytes -> bytes -> bytes;
  ecb_decrypt_raw : bytes -> bytes -> bytes;
  gcm_encrypt_raw : bytes -> bytes -> bytes -> bytes;
  gcm_decrypt_raw : bytes -> bytes -> bytes -> bytes;
  gcm_digest : bytes -> bytes -> bytes -> bytes -> bytes;
  rng : Type;
  get_random_bytes : nat -> rng -> bytes * rng
}.

(** [AES.key_size = (16, 24, 32)] *)
Definition AES_key_ok (key : bytes) : bool :=
  let n := length key in
  (n =? 16)%nat || (n =? 24)%nat || (n =? 32)%nat.

Definition aligned (data : bytes) : bool := (length data mod 16 =? 0)%nat.

(** What pycryptodome guarantees of them. *)
Class PrimitivesLaws (P : Primitives) : Prop := {
  ecb_length : forall k d,
    length (ecb_encrypt_raw k d) = length d;
  ecb_inverse : forall k d,
    AES_key_ok k = true -> aligned d = true ->
    ecb_decrypt_raw k (ecb_encrypt_raw k d) = d;
  gcm_inverse : forall k n d,
    gcm_decrypt_raw k n (gcm_encrypt_raw k n d) = d;
  gcm_digest_length : forall k n a c,
    length (gcm_digest k n a c) = 16%nat;
  random_length : forall n g,
    length (fst (get_random_bytes n g)) = n
}.

Module AES.

(** [AES.new(key, AES.MODE_ECB)]: the cipher object keeps the key. *)
Definition new_ECB (key : bytes) : result bytes :=
  if AES_key_ok key then Ok key else Raise ValueError.

(** [cipher.encrypt(data)] in ECB mode: the data must be aligned. *)
Definition ecb_encrypt {P : Primitives} (cipher data : bytes) : result bytes :=
  if aligned data then Ok (ecb_encrypt_raw cipher data) else Raise ValueError.

Definition ecb_decrypt {P : Primitives} (cipher data : bytes) : result bytes :=
  if aligned data then Ok (ecb_decrypt_raw cipher data) else Raise ValueError.

(** A GCM cipher object after [update(header)]. *)
Record gcm_cipher : Type := {
  gcm_key : bytes;
  nonce : bytes;
  assoc : bytes
}.

(** [AES.new(key, AES.MODE_GCM, nonce=nonce)]: an empty nonce and a key
    of the wrong length are both a [ValueError]. *)
Definition new_GCM (key nonce : bytes) : result gcm_cipher :=
  match nonce with
  | [] => Raise ValueError
  | _ =>
    if AES_key_ok key
    then Ok {| gcm_key := key; nonce := nonce; assoc := [] |}
    else Raise ValueError
  end.

(** [cipher.update(header)] *)
Definition update (c : gcm_cipher) (header : bytes) : gcm_cipher :=
  {| gcm_key := gcm_key c; nonce := nonce c; assoc := assoc c ++ header |}.

(** [cipher.encrypt_and_digest(plaintext)] *)
Definition encrypt_and_digest {P : Primitives} (c : gcm_cipher)
    (plaintext : bytes) : bytes * bytes :=
  let ciphertext := gcm_encrypt_raw (gcm_key c) (nonce c) plaintext in
  (ciphertext, gcm_digest (gcm_key c) (nonce c) (assoc c) ciphertext).

Definition bytes_eqb (a b : bytes) : bool :=
  if list_eq_dec Byte.byte_eq_dec a b then true else false.

(** [cipher.decrypt_and_verify(ciphertext, tag)]: [ValueError] ("MAC
    check failed") unless the tag is the one of the ciphertext. *)
Definition decrypt_and_verify {P : Primitives} (c : gcm_cipher)
    (ciphertext tag : bytes) : result bytes :=
  let plaintext := gcm_decrypt_raw (gcm_key c) (nonce c) ciphertext in
  if bytes_eqb tag (gcm_digest (gcm_key c) (nonce c) (assoc c) ciphertext)
  then Ok plaintext
  else Raise ValueError.

End AES.

(* ================================================================= *)
(** ** The module [crypto] *)

(** A value given as a key: a [str] or a [bytes]. *)
Inductive pyval : Type :=
| PStr (s : str)
| PBytes (b : bytes).

(** [len(key)] and [key[:n]] *)
Definition py_len (v : pyval) : nat :=
  match v with
  | PStr s => length s
  | PBytes b => length b
  end.

Definition py_prefix (n : nat) (v : pyval) : pyval :=
  match v with
  | PStr s => PStr (firstn n s)
  | PBytes b => PBytes (firstn n b)
  end.

(** [bytes(v, encoding='utf8')]: a [TypeError] when [v] is not a [str]. *)
Definition py_bytes_utf8 (v : pyval) : result bytes :=
  match v with
  | PStr s => Utf8.encode s
  | PBytes _ => Raise TypeError
  end.

(** What the facade sees of a codec: its two methods.  [encrypt] runs
    over the state [G] of the random generator. *)
Record codec (G : Type) : Type := {
  codec_encrypt : str -> G -> result str * G;
  codec_decrypt : str -> result str
}.

(** *** class AESCrypto *)

Module AESCrypto.

Record t : Type := { key : bytes }.

(** [while len(key) % 16 != 0: key += b'\0'] *)
Fixpoint to_16_loop (fuel : nat) (key : bytes) : bytes :=
  if (length key mod 16 =? 0)%nat then key
  else match fuel with
       | O => key
       | S f => to_16_loop f (key ++ [x00])
       end.

Definition to_16 (key : pyval) : result bytes :=
  let* key := py_bytes_utf8 key in
  Ok (to_16_loop 15 key).

Definition init (key : pyval) : result t :=
  let key := if (32 <? py_len key)%nat then py_prefix 32 key else key in
  let* k := to_16 key in
  Ok {| key := k |}.

Definition aes (self : t) : result bytes := AES.new_ECB (key self).

Definition encrypt {P : Primitives} (self : t) (text : str) : result str :=
  let* aes := aes self in
  let* padded := to_16 (PStr text) in
  let* ciphertext := AES.ecb_encrypt aes padded in
  let* s := Utf8.decode (Base64.encodebytes ciphertext) in
  Ok (remove_newlines s).

Definition decrypt {P : Primitives} (self : t) (text : str) : result str :=
  let* aes := aes self in
  let* raw := Utf8.encode text in
  let* ciphertext := Base64.decodebytes raw in
  let* plain := AES.ecb_decrypt aes ciphertext in
  Utf8.decode (rstrip0 plain).

Definition as_codec {P : Primitives} (self : t) : codec rng :=
  {| codec_encrypt := fun text g => (encrypt self text, g);
     codec_decrypt := decrypt self |}.

End AESCrypto.

(** *** class AESCryptoGCM *)

Module AESCryptoGCM.

Record t : Type := { key : bytes }.

(** [if not isinstance(key, bytes): key = bytes(key, encoding='utf-8')] *)
Definition key_bytes (key : pyval) : result bytes :=
  match key with
  | PBytes b => Ok b
  | PStr s => Utf8.encode s
  end.

Definition process_key (key : pyval) : result bytes :=
  let* key := key_bytes key in
  if (32 <=? length key)%nat then Ok (firstn 32 key)
  else Ok (pad key 32).

Definition init (key : pyval) : result t :=
  let* k := process_key key in
  Ok {| key := k |}.

(** The text of a byte string: [base64.b64encode(b).decode('utf-8')]. *)
Definition b64text (b : bytes) : result str :=
  Utf8.decode (Base64.b64encode b).

(** [encrypt]: the header is drawn first, then the nonce (by [AES.new]). *)
Definition encrypt {P : Primitives} (self : t) (text : str) (g : rng)
    : result str * rng :=
  let (header, g1) := get_random_bytes 16 g in
  let (nonce, g2) := get_random_bytes 16 g1 in
  (let* cipher := AES.new_GCM (key self) nonce in
   let cipher := AES.update cipher header in
   let* plain := Utf8.encode text in
   let (ciphertext, tag) := AES.encrypt_and_digest cipher plain in
   let* h := b64text header in
   let* n := b64text (AES.nonce cipher) in
   let* t := b64text tag in
   let* c := b64text ciphertext in
   Ok (h ++ n ++ t ++ c),
   g2).

Definition decrypt {P : Primitives} (self : t) (text : str) : result str :=
  let metadata := firstn 72 text in
  let* header := Base64.b64decode (firstn 24 metadata) in
  let* nonce := Base64.b64decode (slice 24 48 metadata) in
  let* tag := Base64.b64decode (skipn 48 metadata) in
  let* ciphertext := Base64.b64decode (skipn 72 text) in
  let* cipher := AES.new_GCM (key self) nonce in
  let cipher := AES.update cipher header in
  let* plain_text_bytes := AES.decrypt_and_verify cipher ciphertext tag in
  Utf8.decode plain_text_bytes.

Definition as_codec {P : Primitives} (self : t) : codec rng :=
  {| codec_encrypt := encrypt self;
     codec_decrypt := decrypt self |}.

End AESCryptoGCM.

(** *** get_aes_crypto *)

(** The settings the module reads. *)
Record settings : Type := {
  SECRET_KEY : pyval;
  SECURITY_DATA_CRYPTO_METHOD : String.string
}.

Inductive aes_object : Type :=
| ECB_object (a : AESCrypto.t)
| GCM_object (a : AESCryptoGCM.t).

(** [get_aes_crypto(key, mode)]: when neither branch is taken the local
    [a] is unbound at [return a]. *)
Definition get_aes_crypto (conf : settings) (key : option pyval)
    (mode : String.string) : result aes_object :=
  let key := match key with
             | None => SECRET_KEY conf
             | Some k => k
             end in
  if String.eqb mode "ECB"%string then
    let* a := AESCrypto.init key in Ok (ECB_object a)
  else if String.eqb mode "GCM"%string then
    let* a := AESCryptoGCM.init key in Ok (GCM_object a)
  else Raise UnboundLocalError.

Definition aes_codec {P : Primitives} (a : aes_object) : codec rng :=
  match a with
  | ECB_object c => AESCrypto.as_codec c
  | GCM_object c => AESCryptoGCM.as_codec c
  end.

(** *** class Crypto *)

Module Crypto.

Section Facade.

Variable G : Type.

(** A dict from method names to codecs, in insertion order. *)
Definition dict : Type := list (String.string * codec G).

(** [d.pop(name, None)] on a copy: the value and the dict without it. *)
Fixpoint pop (name : String.string) (d : dict) : option (codec G) * dict :=
  match d with
  | [] => (None, [])
  | (k, v) :: r =>
    if String.eqb name k then (Some v, r)
    else let (found, r') := pop name r in (found, (k, v) :: r')
  end.

(** [d.values()] *)
Definition values (d : dict) : list (codec G) := map snd d.

Record t : Type := { methods : list (codec G) }.

(** [Crypto()], over the class attribute [methods]. *)
Definition init (class_methods : dict) (conf : settings) : result t :=
  let (method, methods) := pop (SECURITY_DATA_CRYPTO_METHOD conf) class_methods in
  match method with
  | None => Raise ImproperlyConfigured
  | Some method => Ok {| methods := method :: values methods |}
  end.

(** [self.methods[0]] *)
Definition encryptor (self : t) : result (codec G) :=
  match methods self with
  | c :: _ => Ok c
  | [] => Raise IndexError
  end.

Definition encrypt (self : t) (text : str) (g : G) : result str * G :=
  match encryptor self with
  | Ok c => codec_encrypt c text g
  | Raise e => (Raise e, g)
  end.

(** [except (TypeError, ValueError, UnicodeDecodeError)] *)
Definition caught (e : exn) : bool :=
  isinstance e TypeError || isinstance e ValueError
  || isinstance e UnicodeDecodeError.

(** The loop of [decrypt]; falling off its end returns [None]. *)
Fixpoint decrypt_loop (decryptors : list (codec G)) (text : str)
    : result (option str) :=
  match decryptors with
  | [] => Ok None
  | decryptor :: rest =>
    match codec_decrypt decryptor text with
    | Ok v => Ok (Some v)
    | Raise e => if caught e then decrypt_loop rest text else Raise e
    end
  end.

Definition decrypt (self : t) (text : str) : result (option str) :=
  decrypt_loop (methods self) text.

End Facade.

(** The class attribute [Crypto.methods]. *)
Definition class_methods {G} (aes_ecb_crypto aes_crypto gm_sm2_crypto : codec G)
    : dict G :=
  [("aes_ecb"%string, aes_ecb_crypto); ("aes"%string, aes_crypto);
   ("gm_sm2"%string, gm_sm2_crypto)].

End Crypto.

(* ================================================================= *)
(** ** The SM2 codec and the objects of the module *)

(** [base64.urlsafe_b64encode] and [base64.urlsafe_b64decode]: the
    standard coding with ['+'] and ['/'] translated to ['-'] and ['_'],
    and back before decoding. *)
Module UrlSafe.

Definition encode_translation (b : byte) : byte :=
  if ord b =? 43 then "-"%byte
  else if ord b =? 47 then "_"%byte
  else b.

Definition decode_translation (b : byte) : byte :=
  if ord b =? 45 then "+"%byte
  else if ord b =? 95 then "/"%byte
  else b.

Definition urlsafe_b64encode (s : bytes) : bytes :=
  map encode_translation (Base64.b64encode s).

(** On a [bytes] argument, as the module calls it. *)
Definition urlsafe_b64decode (s : bytes) : result bytes :=
  Base64.a2b (map decode_translation s).

End UrlSafe.

(** [gmssl.sm2.CryptSM2], a black box: [encrypt] draws from the random
    state [G]; both methods return [bytes] or [None], or raise. *)
Class SM2Primitive (G : Type) : Type := {
  sm2_encrypt : String.string -> bytes -> G -> result (option bytes) * G;
  sm2_decrypt : String.string -> bytes -> result (option bytes)
}.

(** *** class GMSM2Crypto *)

Module GMSM2Crypto.

(** [self.sm2_crypt]: the key pair given to [sm2.CryptSM2]. *)
Record t : Type := {
  public_key : String.string;
  private_key : String.string
}.

Definition init (public_key private_key : String.string) : t :=
  {| public_key := public_key; private_key := private_key |}.

(** [base64.urlsafe_b64encode(x)] raises [TypeError] on [None]. *)
Definition encrypt {G} {S : SM2Primitive G} (self : t) (text : str) (g : G)
    : result str * G :=
  match Utf8.encode text with
  | Raise e => (Raise e, g)
  | Ok data =>
    let (r, g') := sm2_encrypt (public_key self) data g in
    (let* c := r in
     match c with
     | None => Raise TypeError
     | Some c => Utf8.decode (UrlSafe.urlsafe_b64encode c)
     end,
     g')
  end.

(** [None.decode('utf8')] raises [AttributeError]. *)
Definition decrypt {G} {S : SM2Primitive G} (self : t) (text : str)
    : result str :=
  let* raw := Utf8.encode text in
  let* data := UrlSafe.urlsafe_b64decode raw in
  let* plain := sm2_decrypt (private_key self) data in
  match plain with
  | None => Raise (OtherError "AttributeError"%string)
  | Some plain => Utf8.decode plain
  end.

Definition as_codec {G} {S : SM2Primitive G} (self : t) : codec G :=
  {| codec_encrypt := encrypt self;
     codec_decrypt := decrypt self |}.

End GMSM2Crypto.

(** The settings that [get_gm_sm2_crypto] reads. *)
Record sm2_settings : Type := {
  SECURITY_CRYPTO_GM_SM2_PUBLIC_KEY : String.string;
  SECURITY_CRYPTO_GM_SM2_PRIVATE_KEY : String.string
}.

Definition get_gm_sm2_crypto (conf2 : sm2_settings) : GMSM2Crypto.t :=
  GMSM2Crypto.init (SECURITY_CRYPTO_GM_SM2_PUBLIC_KEY conf2)
                   (SECURITY_CRYPTO_GM_SM2_PRIVATE_KEY conf2).

(** [settings.SECRET_KEY] as django's [LazySettings] gives it: an empty
    value raises [ImproperlyConfigured]. *)
Definition settings_SECRET_KEY (conf : settings) : result pyval :=
  if (py_len (SECRET_KEY conf) =? 0)%nat then Raise ImproperlyConfigured
  else Ok (SECRET_KEY conf).

(** The statements that run when the module is imported: the three
    codecs, the class attribute [Crypto.methods] and [crypto = Crypto()].
    The first of them, [get_aes_crypto(mode='ECB')], starts by reading
    [settings.SECRET_KEY]. *)
Definition import_crypto {P : Primitives} {S : SM2Primitive rng}
    (conf : settings) (conf2 : sm2_settings) : result (Crypto.t rng) :=
  let* _ := settings_SECRET_KEY conf in
  let* aes_ecb_crypto := get_aes_crypto conf None "ECB"%string in
  let* aes_crypto := get_aes_crypto conf None "GCM"%string in
  let gm_sm2_crypto := get_gm_sm2_crypto conf2 in
  Crypto.init
    (Crypto.class_methods (aes_codec aes_ecb_crypto) (aes_codec aes_crypto)
                          (GMSM2Crypto.as_codec gm_sm2_crypto))
    conf.

(* ================================================================= *)
(** ** Notions used in the statements *)

(** The text of a byte string in the envelope: its base64 characters. *)
Definition text64 (b : bytes) : str := map ord (Base64.b2a b).

(** The envelope of [AESCryptoGCM]: header, nonce, tag and ciphertext. *)
Definition envelope_of (header nonce tag ciphertext : bytes) : str :=
  text64 header ++ text64 nonce ++ text64 tag ++ text64 ciphertext.

(** The header and the nonce that a call of [AESCryptoGCM.encrypt] draws
    from the generator in state [g], and the state it leaves. *)
Definition drawn_header {P : Primitives} (g : rng) : bytes :=
  fst (get_random_bytes 16 g).

Definition drawn_nonce {P : Primitives} (g : rng) : bytes :=
  fst (get_random_bytes 16 (snd (get_random_bytes 16 g))).

Definition after_draws {P : Primitives} (g : rng) : rng :=
  snd (get_random_bytes 16 (snd (get_random_bytes 16 g))).

(** Bytes below 128. *)
Definition ascii_bytes (l : bytes) : Prop := Forall (fun b => ord b < 0x80) l.

(** Bytes below 128 with no newline among them. *)
Definition b64_chars (l : bytes) : Prop :=
  Forall (fun b => ord b < 0x80 /\ ord b <> 10) l.


(** The failure classes as the specification lists them for the loop
    of the facade: a decode error ([binascii.Error]), an invalid-UTF-8
    error ([UnicodeDecodeError]) and the verification error that
    [decrypt_and_verify] raises (a plain [ValueError]). *)
Definition spec_recoverable (e : exn) : bool :=
  exn_eqb e binascii_Error || exn_eqb e UnicodeDecodeError
  || exn_eqb e ValueError.

(** A byte string whose last byte is zero. *)
Definition ends_in_zero (b : bytes) : Prop := exists pre, b = pre ++ [x00].

(** A code point of Unicode text: at most 0x10FFFF and no surrogate. *)
Definition unicode_scalar (c : N) : Prop :=
  c <= 0x10FFFF /\ ~ (0xD800 <= c <= 0xDFFF).

Definition unicode_text (s : str) : Prop := Forall unicode_scalar s.

(** A key the codecs can be built from: [bytes], or a text. *)
Definition key_text (key : pyval) : Prop :=
  match key with
  | PStr s => unicode_text s
  | PBytes _ => True
  end.

(** [s.rstrip('\0')] on a text. *)
Fixpoint rstrip_nul (s : str) : str :=
  match s with
  | [] => []
  | c :: r =>
    match rstrip_nul r with
    | [] => if c =? 0 then [] else [c]
    | r' => c :: r'
    end
  end.

(** A character of the URL-safe base64 alphabet, or the pad. *)
Definition urlsafe_char (c : N) : Prop :=
  (65 <= c <= 90) \/ (97 <= c <= 122) \/ (48 <= c <= 57)
  \/ c = 45 \/ c = 95 \/ c = 61.

(** A byte that the base64 decoder skips: outside the alphabet, and not
    the pad. *)
Definition skipped_byte (b : byte) : Prop :=
  Base64.a2b_char b = None /\ ord b <> ord Base64.PAD.

(** A code point that the base64 decoder skips in a text: one outside
    ASCII, or an ASCII character outside the alphabet other than the
    pad. *)
Definition skipped_cp (c : N) : Prop :=
  128 <= c \/ skipped_byte (bchr c).

(* ================================================================= *)
(** ** A small instance of the primitives *)

(** Byte-wise addition stands for the ciphers and a checksum for the tag:
    enough to run the codecs on concrete inputs. *)
Module Toy.

Definition sum_bytes (l : bytes) : N :=
  fold_right (fun b acc => ord b + acc) 0 l.

Definition add_bytes (k : N) (d : bytes) : bytes :=
  map (fun b => bchr (ord b + k)) d.

Definition sub_bytes (k : N) (d : bytes) : bytes :=
  map (fun b => bchr (ord b + (256 - k mod 256))) d.

Definition primitives : Primitives := {|
  ecb_encrypt_raw := fun k d => add_bytes (sum_bytes k) d;
  ecb_decrypt_raw := fun k d => sub_bytes (sum_bytes k) d;
  gcm_encrypt_raw := fun k n d => add_bytes (sum_bytes k + sum_bytes n) d;
  gcm_decrypt_raw := fun k n d => sub_bytes (sum_bytes k + sum_bytes n) d;
  gcm_digest := fun k n a c =>
    repeat (bchr (sum_bytes k + sum_bytes n + sum_bytes a + sum_bytes c)) 16;
  rng := N;
  get_random_bytes := fun n g => (repeat (bchr g) n, g + 1)
|}.

(** The text of an ASCII literal. *)
Definition text_of (s : String.string) : str :=
  map ord (String.list_byte_of_string s).

Definition conf : settings :=
  {| SECRET_KEY := PStr (text_of "0123456789abcdef"%string);
     SECURITY_DATA_CRYPTO_METHOD := "aes"%string |}.

(** [get_aes_crypto(mode='ECB')] and [get_aes_crypto(mode='GCM')] under
    these settings. *)
Definition aes_ecb_crypto : AESCrypto.t :=
  match AESCrypto.init (SECRET_KEY conf) with
  | Ok a => a
  | Raise _ => {| AESCrypto.key := [] |}
  end.

Definition aes_crypto : AESCryptoGCM.t :=
  match AESCryptoGCM.init (SECRET_KEY conf) with
  | Ok a => a
  | Raise _ => {| AESCryptoGCM.key := [] |}
  end.

(** In the place of the SM2 codec, which wraps a library outside this
    module: a codec that rejects every text. *)
Definition gm_sm2_crypto : codec N :=
  {| codec_encrypt := fun _ g => (Raise ValueError, g);
     codec_decrypt := fun _ => Raise ValueError |}.

Definition methods : Crypto.dict N :=
  Crypto.class_methods (@AESCrypto.as_codec primitives aes_ecb_crypto)
                       (@AESCryptoGCM.as_codec primitives aes_crypto)
                       gm_sm2_crypto.

(** [crypto = Crypto()] *)
Definition crypto : Crypto.t N :=
  match Crypto.init methods conf with
  | Ok c => c
  | Raise _ => {| Crypto.methods := [] |}
  end.

End Toy.

(** A small instance of the SM2 primitive: the bytes reversed. *)
Module ToySM2.

Definition primitive : SM2Primitive N := {|
  sm2_encrypt := fun _ data g => (Ok (Some (rev data)), g + 1);
  sm2_decrypt := fun _ data => Ok (Some (rev data))
|}.

(** A primitive whose [decrypt] returns [None] on every input. *)
Definition rejecting : SM2Primitive N := {|
  sm2_encrypt := fun _ data g => (Ok (Some (rev data)), g + 1);
  sm2_decrypt := fun _ _ => Ok None
|}.

Definition conf2 : sm2_settings :=
  {| SECURITY_CRYPTO_GM_SM2_PUBLIC_KEY := "04ab"%string;
     SECURITY_CRYPTO_GM_SM2_PRIVATE_KEY := "cd"%string |}.

(** A facade of the two AES codecs alone. *)
Definition aes_only : Crypto.t N :=
  {| Crypto.methods :=
       [@aes_codec Toy.primitives (ECB_object Toy.aes_ecb_crypto);
        @aes_codec Toy.primitives (GCM_object Toy.aes_crypto)] |}.

End ToySM2.

(** Other small instances: a generator that gives the same bytes at
    every call, a tag that no two short ciphertexts share, and two
    codecs that do nothing but raise [TypeError] and return. *)
Module ToyMore.




(** A codec that raises [TypeError], as [bytes(text, encoding='utf8')]
    does on a value that is no [str], and a codec that returns. *)
Definition raising_TypeError : codec N :=
  {| codec_encrypt := fun _ g => (Raise TypeError, g);
     codec_decrypt := fun _ => Raise TypeError |}.

Definition returning (v : str) : codec N :=
  {| codec_encrypt := fun _ g => (Ok v, g);
     codec_decrypt := fun _ => Ok v |}.

End ToyMore.

(* ================================================================= *)
(** * Properties *)

Unset Implicit Arguments.

(** ** Bytes and comparisons *)

Ltac Zify.zify_post_hook ::= Z.to_euclidean_division_equations.

(** Decide the comparisons of the goal by linear arithmetic. *)
Ltac resolve_cmp :=
  repeat match goal with
  | |- context [N.ltb ?a ?b] =>
    first [ rewrite (proj2 (N.ltb_lt a b)) by lia
          | rewrite (proj2 (N.ltb_ge a b)) by lia ]
  | |- context [N.leb ?a ?b] =>
    first [ rewrite (proj2 (N.leb_le a b)) by lia
          | rewrite (proj2 (N.leb_gt a b)) by lia ]
  | |- context [N.eqb ?a ?b] =>
    first [ rewrite (proj2 (N.eqb_eq a b)) by lia
          | rewrite (proj2 (N.eqb_neq a b)) by lia ]
  end.

Lemma ord_bound (b : byte) : ord b < 256.
Proof. unfold ord. pose proof (Byte.to_N_bounded b). lia. Qed.

Lemma ord_bchr (n : N) : n < 256 -> ord (bchr n) = n.
Proof.
  intros H. unfold ord, bchr. rewrite N.mod_small by exact H.
  destruct (Byte.of_N n) eqn:E.
  - apply Byte.to_of_N. exact E.
  - apply Byte.of_N_None_iff in E. lia.
Qed.

Lemma bchr_ord (b : byte) : bchr (ord b) = b.
Proof.
  unfold ord, bchr. rewrite N.mod_small by apply ord_bound.
  now rewrite Byte.of_to_N.
Qed.

Lemma ord_inj (a b : byte) : ord a = ord b -> a = b.
Proof. intros H. rewrite <- (bchr_ord a), <- (bchr_ord b). now rewrite H. Qed.

Lemma map_bchr_ord (l : bytes) : map bchr (map ord l) = l.
Proof.
  rewrite map_map. rewrite <- (map_id l) at 2.
  apply map_ext. apply bchr_ord.
Qed.

(** ** UTF-8 *)

Lemma decode_lead1 b0 l :
  ord b0 < 0x80 ->
  Utf8.decode (b0 :: l) = Utf8.cons_cp (ord b0) (Utf8.decode l).
Proof. intros H. cbn [Utf8.decode]. cbv zeta. now resolve_cmp. Qed.

Lemma decode_lead2 b0 b1 l :
  0xC2 <= ord b0 -> ord b0 < 0xE0 -> Utf8.is_cont b1 = true ->
  Utf8.decode (b0 :: b1 :: l)
  = Utf8.cons_cp ((ord b0 - 0xC0) * 64 + (ord b1 - 0x80)) (Utf8.decode l).
Proof.
  intros H1 H2 H3. cbn [Utf8.decode]. cbv zeta. resolve_cmp. now rewrite H3.
Qed.

Lemma decode_lead3 b0 b1 b2 l :
  let c := (ord b0 - 0xE0) * 4096 + (ord b1 - 0x80) * 64 + (ord b2 - 0x80) in
  0xE0 <= ord b0 -> ord b0 < 0xF0 ->
  Utf8.is_cont b1 = true -> Utf8.is_cont b2 = true ->
  0x800 <= c -> (c < 0xD800 \/ 0xDFFF < c) ->
  Utf8.decode (b0 :: b1 :: b2 :: l) = Utf8.cons_cp c (Utf8.decode l).
Proof.
  intros c H1 H2 H3 H4 H5 H6. subst c. cbn [Utf8.decode]. cbv zeta.
  rewrite H3, H4. resolve_cmp.
  destruct H6 as [H6 | H6]; resolve_cmp; reflexivity.
Qed.

Lemma decode_lead4 b0 b1 b2 b3 l :
  let c := (ord b0 - 0xF0) * 262144 + (ord b1 - 0x80) * 4096
           + (ord b2 - 0x80) * 64 + (ord b3 - 0x80) in
  0xF0 <= ord b0 -> ord b0 < 0xF5 ->
  Utf8.is_cont b1 = true -> Utf8.is_cont b2 = true ->
  Utf8.is_cont b3 = true ->
  0x10000 <= c -> c <= 0x10FFFF ->
  Utf8.decode (b0 :: b1 :: b2 :: b3 :: l) = Utf8.cons_cp c (Utf8.decode l).
Proof.
  intros c H1 H2 H3 H4 H5 H6 H7. subst c. cbn [Utf8.decode]. cbv zeta.
  rewrite H3, H4, H5. now resolve_cmp.
Qed.

Lemma is_cont_bchr (n : N) : n < 64 -> Utf8.is_cont (bchr (0x80 + n)) = true.
Proof.
  intros H. unfold Utf8.is_cont. rewrite ord_bchr by lia. now resolve_cmp.
Qed.

Lemma Ok_inj {A} (a b : A) : Ok a = Ok b -> a = b.
Proof. congruence. Qed.

(** Decoding undoes the encoding of one code point. *)
Lemma decode_encode_cp (c : N) (b rest : bytes) :
  Utf8.encode_cp c = Ok b ->
  Utf8.decode (b ++ rest) = Utf8.cons_cp c (Utf8.decode rest).
Proof.
  unfold Utf8.encode_cp.
  destruct (N.ltb_spec c 0x80) as [H1 | H1].
  { intros E. apply Ok_inj in E. subst b. cbn [app].
    rewrite decode_lead1; rewrite ord_bchr by lia; [reflexivity | lia]. }
  destruct (N.ltb_spec c 0x800) as [H2 | H2].
  { intros E. apply Ok_inj in E. subst b. cbn [app].
    rewrite decode_lead2; rewrite ?ord_bchr by lia;
      [f_equal; lia | lia | lia | apply is_cont_bchr; lia]. }
  destruct (N.ltb_spec c 0x10000) as [H3 | H3].
  { destruct (N.leb_spec 0xD800 c) as [H4 | H4];
      [destruct (N.leb_spec c 0xDFFF) as [H5 | H5] |]; cbn [andb];
      try discriminate; intros E; apply Ok_inj in E; subst b; cbn [app];
      (rewrite decode_lead3; rewrite ?ord_bchr by lia;
       [f_equal; lia | lia | lia | apply is_cont_bchr; lia
        | apply is_cont_bchr; lia | lia | lia]). }
  destruct (N.leb_spec c 0x10FFFF) as [H4 | H4]; [| discriminate].
  intros E. apply Ok_inj in E. subst b. cbn [app].
  rewrite decode_lead4; rewrite ?ord_bchr by lia;
    [f_equal; lia | lia | lia | apply is_cont_bchr; lia
     | apply is_cont_bchr; lia | apply is_cont_bchr; lia | lia | lia].
Qed.

(** [bytes(s, 'utf8').decode('utf8') == s] *)
Lemma decode_encode (s : str) (b : bytes) :
  Utf8.encode s = Ok b -> Utf8.decode b = Ok s.
Proof.
  revert b. induction s as [| c r IH]; cbn; intros b.
  - now intros [= <-].
  - destruct (Utf8.encode_cp c) as [bc |] eqn:Ec; cbn; [| discriminate].
    destruct (Utf8.encode r) as [br |] eqn:Er; cbn; [| discriminate].
    intros [= <-]. rewrite (decode_encode_cp _ _ _ Ec), (IH _ eq_refl).
    reflexivity.
Qed.

(** The texts that encode are the Unicode texts. *)
Lemma encode_cp_defined (c : N) :
  unicode_scalar c <-> exists b, Utf8.encode_cp c = Ok b.
Proof.
  unfold unicode_scalar, Utf8.encode_cp.
  destruct (N.ltb_spec c 0x80); [split; [eexists; reflexivity | lia] |].
  destruct (N.ltb_spec c 0x800); [split; [eexists; reflexivity | lia] |].
  destruct (N.ltb_spec c 0x10000).
  - destruct (N.leb_spec 0xD800 c); [destruct (N.leb_spec c 0xDFFF) |];
      cbn [andb]; split; try (eexists; reflexivity); try lia;
      intros [b Hb]; discriminate.
  - destruct (N.leb_spec c 0x10FFFF); split;
      try (eexists; reflexivity); try lia.
    intros [b Hb]. discriminate.
Qed.

Lemma encode_defined (s : str) :
  unicode_text s <-> exists b, Utf8.encode s = Ok b.
Proof.
  unfold unicode_text. induction s as [| c r IH]; cbn [Utf8.encode].
  - split; [eexists; reflexivity | constructor].
  - split.
    + intros H. inversion H as [| ? ? Hc Hr]; subst.
      apply encode_cp_defined in Hc. destruct Hc as [bc ->].
      apply IH in Hr. destruct Hr as [br ->]. eexists. reflexivity.
    + intros [b Hb].
      destruct (Utf8.encode_cp c) as [bc |] eqn:Ec; [| discriminate].
      destruct (Utf8.encode r) as [br |] eqn:Er; [| discriminate].
      constructor.
      * apply encode_cp_defined. now exists bc.
      * apply IH. now exists br.
Qed.

(** ASCII bytes decode to their values, and encode back. *)
Lemma decode_ascii (l : bytes) :
  ascii_bytes l -> Utf8.decode l = Ok (map ord l).
Proof.
  induction 1 as [| b r Hb _ IH].
  - reflexivity.
  - rewrite decode_lead1 by exact Hb. now rewrite IH.
Qed.

Lemma encode_map_ord (l : bytes) :
  ascii_bytes l -> Utf8.encode (map ord l) = Ok l.
Proof.
  induction 1 as [| b r Hb _ IH]; cbn.
  - reflexivity.
  - unfold Utf8.encode_cp. resolve_cmp. cbn. rewrite IH. cbn.
    now rewrite bchr_ord.
Qed.

Lemma encode_ascii_map_ord (l : bytes) :
  ascii_bytes l -> Utf8.encode_ascii (map ord l) = Ok l.
Proof.
  induction 1 as [| b r Hb _ IH]; cbn.
  - reflexivity.
  - resolve_cmp. rewrite IH. cbn. now rewrite bchr_ord.
Qed.

(** ** base64 *)

Lemma list_ind3 {A} (P : list A -> Prop) :
  P [] -> (forall a, P [a]) -> (forall a b, P [a; b]) ->
  (forall a b c r, P r -> P (a :: b :: c :: r)) ->
  forall l, P l.
Proof.
  intros H0 H1 H2 H3.
  fix IH 1. intros [| a [| b [| c r]]].
  - exact H0.
  - apply H1.
  - apply H2.
  - apply H3. apply IH.
Qed.

Lemma ord_PAD : ord Base64.PAD = 61.
Proof. reflexivity. Qed.

Lemma b2a_char_ord (i : N) :
  i < 64 ->
  ord (Base64.b2a_char i) < 0x80 /\
  ord (Base64.b2a_char i) <> ord Base64.PAD /\
  ord (Base64.b2a_char i) <> 10.
Proof.
  intros H. rewrite ord_PAD. unfold Base64.b2a_char.
  destruct (N.ltb_spec i 26); [rewrite ord_bchr by lia; lia |].
  destruct (N.ltb_spec i 52); [rewrite ord_bchr by lia; lia |].
  destruct (N.ltb_spec i 62); [rewrite ord_bchr by lia; lia |].
  destruct (N.eqb_spec i 62); cbn; lia.
Qed.

Lemma a2b_b2a_char (i : N) :
  i < 64 -> Base64.a2b_char (Base64.b2a_char i) = Some i.
Proof.
  intros H. unfold Base64.b2a_char.
  destruct (N.ltb_spec i 26);
    [unfold Base64.a2b_char; rewrite ord_bchr by lia; cbv zeta;
     resolve_cmp; cbn [andb]; f_equal; lia |].
  destruct (N.ltb_spec i 52);
    [unfold Base64.a2b_char; rewrite ord_bchr by lia; cbv zeta;
     resolve_cmp; cbn [andb]; f_equal; lia |].
  destruct (N.ltb_spec i 62);
    [unfold Base64.a2b_char; rewrite ord_bchr by lia; cbv zeta;
     resolve_cmp; cbn [andb]; f_equal; lia |].
  destruct (N.eqb_spec i 62) as [-> | ?]; [reflexivity |].
  replace i with 63 by lia. reflexivity.
Qed.

(** One step of the decoder on a character of the alphabet. *)
Lemma a2b_loop_char (i : N) (r : bytes) (quad_pos leftchar pads : N) :
  i < 64 ->
  Base64.a2b_loop (Base64.b2a_char i :: r) quad_pos leftchar pads
  = if quad_pos =? 0 then Base64.a2b_loop r 1 i 0
    else if quad_pos =? 1 then
      Base64.emit (bchr (leftchar * 4 + i / 16))
                  (Base64.a2b_loop r 2 (i mod 16) 0)
    else if quad_pos =? 2 then
      Base64.emit (bchr (leftchar * 16 + i / 4))
                  (Base64.a2b_loop r 3 (i mod 4) 0)
    else Base64.emit (bchr (leftchar * 64 + i)) (Base64.a2b_loop r 0 0 0).
Proof.
  intros H. cbn [Base64.a2b_loop].
  destruct (b2a_char_ord i H) as (_ & Hp & _).
  rewrite (proj2 (N.eqb_neq _ _) Hp), a2b_b2a_char by exact H.
  reflexivity.
Qed.

(** The decoder on a full quad, started at a quad boundary. *)
Lemma a2b_loop_quad (v0 v1 v2 v3 : N) (r : bytes) :
  v0 < 64 -> v1 < 64 -> v2 < 64 -> v3 < 64 ->
  Base64.a2b_loop
    (Base64.b2a_char v0 :: Base64.b2a_char v1 :: Base64.b2a_char v2
     :: Base64.b2a_char v3 :: r) 0 0 0
  = Base64.emit (bchr (v0 * 4 + v1 / 16))
      (Base64.emit (bchr (v1 mod 16 * 16 + v2 / 4))
         (Base64.emit (bchr (v2 mod 4 * 64 + v3))
            (Base64.a2b_loop r 0 0 0))).
Proof.
  intros H0 H1 H2 H3.
  rewrite !a2b_loop_char by assumption. reflexivity.
Qed.

Lemma a2b_loop_pad (r : bytes) (quad_pos leftchar pads : N) :
  Base64.a2b_loop (Base64.PAD :: r) quad_pos leftchar pads
  = if (2 <=? quad_pos) && (4 <=? quad_pos + (pads + 1)) then Ok []
    else Base64.a2b_loop r quad_pos leftchar
           (if 2 <=? quad_pos then pads + 1 else pads).
Proof. reflexivity. Qed.

Lemma emit_Ok (b : byte) (r : bytes) : Base64.emit b (Ok r) = Ok (b :: r).
Proof. reflexivity. Qed.

Lemma quad_first (a b : byte) :
  ord a / 4 * 4 + (ord a mod 4 * 16 + ord b / 16) / 16 = ord a.
Proof. pose proof (ord_bound a). pose proof (ord_bound b). lia. Qed.

Lemma quad_second (a b c : byte) :
  (ord a mod 4 * 16 + ord b / 16) mod 16 * 16
  + (ord b mod 16 * 4 + ord c / 64) / 4 = ord b.
Proof.
  pose proof (ord_bound a). pose proof (ord_bound b).
  pose proof (ord_bound c). lia.
Qed.

Lemma quad_third (b c : byte) :
  (ord b mod 16 * 4 + ord c / 64) mod 4 * 64 + ord c mod 64 = ord c.
Proof. pose proof (ord_bound b). pose proof (ord_bound c). lia. Qed.

Lemma sextet_bounds (a b : byte) :
  ord a / 4 < 64 /\ ord a mod 4 * 16 + ord b / 16 < 64
  /\ ord a mod 16 * 4 + ord b / 64 < 64 /\ ord a mod 64 < 64
  /\ ord a mod 4 * 16 < 64 /\ ord a mod 16 * 4 < 64.
Proof. pose proof (ord_bound a). pose proof (ord_bound b). lia. Qed.

(** The decoder on the encoding of three bytes. *)
Lemma a2b_loop_b2a_cons3 (a b c : byte) (r rest : bytes) :
  Base64.a2b_loop (Base64.b2a (a :: b :: c :: r) ++ rest) 0 0 0
  = Base64.emit a (Base64.emit b (Base64.emit c
      (Base64.a2b_loop (Base64.b2a r ++ rest) 0 0 0))).
Proof.
  cbn [Base64.b2a app].
  destruct (sextet_bounds a b) as (H0 & H1 & _).
  destruct (sextet_bounds b c) as (_ & _ & H2 & _).
  destruct (sextet_bounds c c) as (_ & _ & _ & H3 & _).
  rewrite a2b_loop_quad by assumption.
  now rewrite quad_first, quad_second, quad_third, !bchr_ord.
Qed.


(** The decoder on the last, padded quad of an encoding. *)
Lemma a2b_loop_tail1 (v0 v1 : N) (a : byte) :
  v0 < 64 -> v1 < 64 -> v0 * 4 + v1 / 16 = ord a ->
  Base64.a2b_loop
    [Base64.b2a_char v0; Base64.b2a_char v1; Base64.PAD; Base64.PAD] 0 0 0
  = Ok [a].
Proof.
  intros H0 H1 E.
  rewrite !a2b_loop_char, !a2b_loop_pad by assumption.
  cbn [N.eqb N.leb N.add N.compare Pos.compare Pos.compare_cont Pos.eqb
       Pos.add Pos.succ andb].
  rewrite E, bchr_ord. reflexivity.
Qed.

Lemma a2b_loop_tail2 (v0 v1 v2 : N) (a b : byte) :
  v0 < 64 -> v1 < 64 -> v2 < 64 ->
  v0 * 4 + v1 / 16 = ord a -> v1 mod 16 * 16 + v2 / 4 = ord b ->
  Base64.a2b_loop
    [Base64.b2a_char v0; Base64.b2a_char v1; Base64.b2a_char v2; Base64.PAD]
    0 0 0
  = Ok [a; b].
Proof.
  intros H0 H1 H2 Ea Eb.
  rewrite !a2b_loop_char, !a2b_loop_pad by assumption.
  cbn [N.eqb N.leb N.add N.compare Pos.compare Pos.compare_cont Pos.eqb
       Pos.add Pos.succ andb].
  rewrite Ea, Eb, !bchr_ord. reflexivity.
Qed.

(** [a2b_base64(b2a_base64(l, newline=False)) == l] *)
Lemma a2b_b2a (l : bytes) : Base64.a2b (Base64.b2a l) = Ok l.
Proof.
  unfold Base64.a2b.
  induction l as [| a | a b | a b c r IH] using list_ind3.
  - reflexivity.
  - cbn [Base64.b2a].
    destruct (sextet_bounds a a) as (H0 & _ & _ & _ & H1 & _).
    apply a2b_loop_tail1; try assumption.
    pose proof (ord_bound a). lia.
  - cbn [Base64.b2a].
    destruct (sextet_bounds a b) as (H0 & H1 & _).
    destruct (sextet_bounds b b) as (_ & _ & _ & _ & _ & H2).
    apply a2b_loop_tail2; try assumption.
    + apply quad_first.
    + pose proof (ord_bound a). pose proof (ord_bound b). lia.
  - rewrite <- (app_nil_r (Base64.b2a (a :: b :: c :: r))).
    rewrite a2b_loop_b2a_cons3, app_nil_r, IH. reflexivity.
Qed.

Lemma b2a_inj (l1 l2 : bytes) : Base64.b2a l1 = Base64.b2a l2 -> l1 = l2.
Proof.
  intros H. apply Ok_inj. now rewrite <- !a2b_b2a, H.
Qed.

Lemma b2a_app (l1 l2 : bytes) :
  (length l1 mod 3 = 0)%nat ->
  Base64.b2a (l1 ++ l2) = Base64.b2a l1 ++ Base64.b2a l2.
Proof.
  induction l1 as [| a | a b | a b c r IH] using list_ind3; intros H.
  - reflexivity.
  - discriminate.
  - discriminate.
  - cbn [Base64.b2a app]. rewrite IH; [reflexivity |].
    change (length (a :: b :: c :: r)) with (3 + length r)%nat in H.
    rewrite Nat.add_comm, <- (Nat.mul_1_l 3), Nat.Div0.mod_add in H.
    exact H.
Qed.

(** Four characters for every three bytes, the last group padded. *)
Lemma b2a_length (l : bytes) :
  length (Base64.b2a l) = (4 * ((length l + 2) / 3))%nat.
Proof.
  induction l as [| a | a b | a b c r IH] using list_ind3;
    try reflexivity.
  cbn [Base64.b2a length]. rewrite IH.
  replace (S (S (S (length r))) + 2)%nat with (length r + 2 + 1 * 3)%nat
    by lia.
  rewrite Nat.div_add by discriminate. lia.
Qed.

(** The characters of an encoding: ASCII, and no newline among them. *)
Lemma b2a_chars (l : bytes) : b64_chars (Base64.b2a l).
Proof.
  assert (Hc : forall i, i < 64 ->
               ord (Base64.b2a_char i) < 0x80 /\ ord (Base64.b2a_char i) <> 10).
  { intros i Hi. destruct (b2a_char_ord i Hi) as (? & _ & ?). now split. }
  assert (Hp : ord Base64.PAD < 0x80 /\ ord Base64.PAD <> 10).
  { rewrite ord_PAD. lia. }
  unfold b64_chars.
  induction l as [| a | a b | a b c r IH] using list_ind3; cbn [Base64.b2a].
  - constructor.
  - destruct (sextet_bounds a a) as (H0 & _ & _ & _ & H1 & _).
    repeat (apply Forall_cons; [solve [auto] |]). apply Forall_nil.
  - destruct (sextet_bounds a b) as (H0 & H1 & _).
    destruct (sextet_bounds b b) as (_ & _ & _ & _ & _ & H2).
    repeat (apply Forall_cons; [solve [auto] |]). apply Forall_nil.
  - destruct (sextet_bounds a b) as (H0 & H1 & _).
    destruct (sextet_bounds b c) as (_ & _ & H2 & _).
    destruct (sextet_bounds c c) as (_ & _ & _ & H3 & _).
    repeat (apply Forall_cons; [solve [auto] |]). exact IH.
Qed.

Lemma b64_chars_ascii (l : bytes) : b64_chars l -> ascii_bytes l.
Proof. apply Forall_impl. tauto. Qed.

(** ** Slices and the text of byte strings *)

Lemma firstn_exact {A} (l r : list A) (n : nat) :
  length l = n -> firstn n (l ++ r) = l.
Proof.
  intros <-. rewrite firstn_app, Nat.sub_diag, firstn_all. cbn.
  apply app_nil_r.
Qed.

Lemma skipn_exact {A} (l r : list A) (n : nat) :
  length l = n -> skipn n (l ++ r) = r.
Proof.
  intros <-. rewrite skipn_app, Nat.sub_diag, skipn_all. reflexivity.
Qed.

(** The three slices that [decrypt] takes of the first 72 characters. *)
Lemma metadata_slices (h n t c : str) :
  length h = 24%nat -> length n = 24%nat -> length t = 24%nat ->
  firstn 24 (firstn 72 (h ++ n ++ t ++ c)) = h /\
  slice 24 48 (firstn 72 (h ++ n ++ t ++ c)) = n /\
  skipn 48 (firstn 72 (h ++ n ++ t ++ c)) = t /\
  skipn 72 (h ++ n ++ t ++ c) = c.
Proof.
  intros Hh Hn Ht.
  assert (E72 : firstn 72 (h ++ n ++ t ++ c) = h ++ n ++ t).
  { rewrite (app_assoc n t c), (app_assoc h (n ++ t) c).
    apply firstn_exact. rewrite !length_app. lia. }
  rewrite E72. repeat split.
  - now apply firstn_exact.
  - unfold slice. rewrite (skipn_exact h _ 24 Hh).
    now apply firstn_exact.
  - rewrite (app_assoc h n t). apply skipn_exact.
    rewrite length_app. lia.
  - rewrite (app_assoc n t c), (app_assoc h (n ++ t) c).
    apply skipn_exact. rewrite !length_app. lia.
Qed.

Lemma b64text_text64 (b : bytes) : AESCryptoGCM.b64text b = Ok (text64 b).
Proof.
  unfold AESCryptoGCM.b64text, Base64.b64encode, text64.
  apply decode_ascii, b64_chars_ascii, b2a_chars.
Qed.

Lemma b64decode_text64 (b : bytes) : Base64.b64decode (text64 b) = Ok b.
Proof.
  unfold Base64.b64decode, text64.
  rewrite encode_ascii_map_ord by apply b64_chars_ascii, b2a_chars.
  apply a2b_b2a.
Qed.


Lemma text64_length (b : bytes) :
  length (text64 b) = (4 * ((length b + 2) / 3))%nat.
Proof. unfold text64. rewrite length_map. apply b2a_length. Qed.

Lemma text64_length16 (b : bytes) :
  length b = 16%nat -> length (text64 b) = 24%nat.
Proof. intros H. rewrite text64_length, H. reflexivity. Qed.

(** ** The facade *)

Section FacadeFacts.

Variable G : Type.

Implicit Types (d : Crypto.dict G) (c : codec G) (text : str).

(** The classes the loop of [decrypt] catches. *)
Lemma caught_classes (e : exn) :
  Crypto.caught e = true <->
  e = TypeError \/ e = ValueError \/ e = UnicodeError
  \/ e = UnicodeDecodeError \/ e = UnicodeEncodeError \/ e = binascii_Error.
Proof.
  split.
  - destruct e; cbn; intros H; try discriminate; auto 10.
  - intros [H | [H | [H | [H | [H | H]]]]]; subst e; reflexivity.
Qed.

Lemma pop_absent name d :
  ~ In name (map fst d) -> Crypto.pop name d = (None, d).
Proof.
  induction d as [| [k v] r IH]; cbn; intros H.
  - reflexivity.
  - destruct (String.eqb_spec name k) as [E | E].
    + exfalso. apply H. left. now symmetry.
    + rewrite IH by tauto. reflexivity.
Qed.

Lemma pop_present name c pre post :
  ~ In name (map fst pre) ->
  Crypto.pop name (pre ++ (name, c) :: post) = (Some c, pre ++ post).
Proof.
  induction pre as [| [k v] r IH]; cbn; intros H.
  - now rewrite String.eqb_refl.
  - destruct (String.eqb_spec name k) as [E | E].
    + exfalso. apply H. left. now symmetry.
    + rewrite IH by tauto. reflexivity.
Qed.

Lemma values_app d1 d2 :
  Crypto.values (d1 ++ d2) = Crypto.values d1 ++ Crypto.values d2.
Proof. apply map_app. Qed.

(** The loop skips a prefix of codecs that all raise a caught error. *)
Lemma decrypt_loop_skip tried rest text :
  Forall (fun c => exists e, codec_decrypt c text = Raise e
                             /\ Crypto.caught e = true) tried ->
  Crypto.decrypt_loop (tried ++ rest) text = Crypto.decrypt_loop rest text.
Proof.
  induction 1 as [| c l (e & He & Hc) _ IH]; cbn.
  - reflexivity.
  - now rewrite He, Hc.
Qed.

Lemma init_absent d (conf : settings) :
  ~ In (SECURITY_DATA_CRYPTO_METHOD conf) (map fst d) ->
  Crypto.init d conf = Raise ImproperlyConfigured.
Proof. intros H. unfold Crypto.init. now rewrite pop_absent. Qed.

Lemma init_present (conf : settings) c pre post :
  ~ In (SECURITY_DATA_CRYPTO_METHOD conf) (map fst pre) ->
  Crypto.init (pre ++ (SECURITY_DATA_CRYPTO_METHOD conf, c) :: post) conf
  = Ok {| Crypto.methods := c :: Crypto.values pre ++ Crypto.values post |}.
Proof.
  intros H. unfold Crypto.init.
  rewrite pop_present by exact H. now rewrite values_app.
Qed.

(** C4: a configured name absent from the mapping makes the construction
    raise [ImproperlyConfigured], and no object is built; a name bound
    to a codec gives the list with that codec first, followed by the
    other codecs in the order of the mapping. *)
Theorem init_active_first d (conf : settings) :
  (~ In (SECURITY_DATA_CRYPTO_METHOD conf) (map fst d) ->
   Crypto.init d conf = Raise ImproperlyConfigured) /\
  (forall c pre post,
      d = pre ++ (SECURITY_DATA_CRYPTO_METHOD conf, c) :: post ->
      ~ In (SECURITY_DATA_CRYPTO_METHOD conf) (map fst pre) ->
      Crypto.init d conf
      = Ok {| Crypto.methods := c :: Crypto.values pre ++ Crypto.values post |}).
Proof.
  split.
  - apply init_absent.
  - intros c pre post -> H. now apply init_present.
Qed.

(** C5: [encrypt] is the [encrypt] of the codec at position 0 of the
    list, whatever it returns or raises and whatever the other codecs
    are. *)
Theorem encrypt_delegates d (conf : settings) (self : Crypto.t G) :
  Crypto.init d conf = Ok self ->
  exists active others,
    Crypto.methods self = active :: others /\
    nth_error (Crypto.methods self) 0 = Some active /\
    forall text g, Crypto.encrypt self text g = codec_encrypt active text g.
Proof.
  unfold Crypto.init.
  destruct (Crypto.pop _ d) as [[active |] remaining]; intros H;
    [| discriminate].
  injection H as <-.
  exists active, (Crypto.values remaining). cbn. repeat split.
Qed.

(** C1, as the code has it: the list built by the construction starts
    with the active codec and goes on with the others in the order of
    the mapping; [decrypt] runs through it, skipping every codec that
    raises a class of the [except] clause, which are [TypeError],
    [ValueError] and the subclasses of [ValueError] ([UnicodeError],
    [UnicodeDecodeError], [UnicodeEncodeError], [binascii.Error]) and
    no other: the three classes of the specification are among them;
    the first codec that returns gives the result, and the first error
    of another class is raised at once. *)
Theorem decrypt_fallback_order d (conf : settings) (self : Crypto.t G)
    active pre post text :
  d = pre ++ (SECURITY_DATA_CRYPTO_METHOD conf, active) :: post ->
  ~ In (SECURITY_DATA_CRYPTO_METHOD conf) (map fst pre) ->
  Crypto.init d conf = Ok self ->
  Crypto.methods self = active :: Crypto.values pre ++ Crypto.values post /\
  (forall e, Crypto.caught e = true <->
     e = TypeError \/ e = ValueError \/ e = UnicodeError
     \/ e = UnicodeDecodeError \/ e = UnicodeEncodeError
     \/ e = binascii_Error) /\
  (forall e, spec_recoverable e = true -> Crypto.caught e = true) /\
  forall tried decryptor rest,
    Crypto.methods self = tried ++ decryptor :: rest ->
    Forall (fun c => exists e, codec_decrypt c text = Raise e
                               /\ Crypto.caught e = true) tried ->
    (forall v, codec_decrypt decryptor text = Ok v ->
               Crypto.decrypt self text = Ok (Some v)) /\
    (forall e, codec_decrypt decryptor text = Raise e ->
               Crypto.caught e = false ->
               Crypto.decrypt self text = Raise e) /\
    (forall e, codec_decrypt decryptor text = Raise e ->
               Crypto.caught e = true ->
               Crypto.decrypt self text = Crypto.decrypt_loop rest text).
Proof.
  intros -> Hpre Hinit.
  rewrite init_present in Hinit by exact Hpre. injection Hinit as <-.
  split; [reflexivity |]. split; [exact caught_classes |].
  split; [intros e; destruct e; cbn; congruence |].
  intros tried decryptor rest Hm Htried. unfold Crypto.decrypt.
  rewrite Hm, decrypt_loop_skip by exact Htried. cbn.
  repeat split; intros x Hx; rewrite Hx; try reflexivity;
    intros Hc; now rewrite Hc.
Qed.

(** C3: when every codec of the list raises a caught class on the text,
    [decrypt] returns [None] and raises nothing. *)
Theorem decrypt_exhausted (self : Crypto.t G) text :
  Forall (fun c => exists e, codec_decrypt c text = Raise e
                             /\ Crypto.caught e = true)
         (Crypto.methods self) ->
  Crypto.decrypt self text = Ok None.
Proof.
  intros H. unfold Crypto.decrypt.
  rewrite <- (app_nil_r (Crypto.methods self)).
  now rewrite decrypt_loop_skip by exact H.
Qed.

End FacadeFacts.

(** ** The GCM codec *)

Lemma pad_short (b : bytes) :
  (length b < 32)%nat ->
  pad b 32 = b ++ repeat (bchr (N.of_nat (32 - length b))) (32 - length b).
Proof.
  intros H. unfold pad. now rewrite Nat.mod_small by exact H.
Qed.

Lemma process_key_cases (key : pyval) (b : bytes) :
  AESCryptoGCM.key_bytes key = Ok b ->
  ((32 <= length b)%nat ->
   AESCryptoGCM.process_key key = Ok (firstn 32 b)) /\
  ((length b < 32)%nat ->
   AESCryptoGCM.process_key key
   = Ok (b ++ repeat (bchr (N.of_nat (32 - length b))) (32 - length b))).
Proof.
  intros Hb. unfold AESCryptoGCM.process_key. rewrite Hb. cbn [Py.bind].
  split; intros H.
  - now rewrite (proj2 (Nat.leb_le _ _) H).
  - rewrite (proj2 (Nat.leb_gt _ _) H). now rewrite pad_short.
Qed.

Lemma process_key_length (key : pyval) (k : bytes) :
  AESCryptoGCM.process_key key = Ok k -> length k = 32%nat.
Proof.
  unfold AESCryptoGCM.process_key.
  destruct (AESCryptoGCM.key_bytes key) as [b |] eqn:Hb; [| discriminate].
  destruct (process_key_cases key b Hb) as [Hlong Hshort].
  cbn [Py.bind]. destruct (Nat.leb_spec 32 (length b)) as [H | H];
    intros E; apply Ok_inj in E; subst k.
  - rewrite length_firstn. lia.
  - rewrite pad_short by exact H. rewrite length_app, repeat_length. lia.
Qed.

Lemma init_key_ok (key : pyval) (self : AESCryptoGCM.t) :
  AESCryptoGCM.init key = Ok self ->
  AES_key_ok (AESCryptoGCM.key self) = true.
Proof.
  unfold AESCryptoGCM.init.
  destruct (AESCryptoGCM.process_key key) as [k |] eqn:Hk; [| discriminate].
  intros E. apply Ok_inj in E. subst self. cbn.
  unfold AES_key_ok. now rewrite (process_key_length key k Hk).
Qed.

(** The decoder raises nothing but [binascii.Error]. *)
Lemma a2b_loop_raises (l : bytes) (q lc pads : N) (e : exn) :
  Base64.a2b_loop l q lc pads = Raise e -> e = binascii_Error.
Proof.
  revert q lc pads.
  induction l as [| ch r IH]; intros q lc pads; cbn [Base64.a2b_loop].
  - destruct (q =? 0); congruence.
  - destruct (ord ch =? ord Base64.PAD).
    + destruct ((2 <=? q) && (4 <=? q + (pads + 1))); [discriminate |].
      apply IH.
    + destruct (Base64.a2b_char ch) as [v |]; [| apply IH].
      destruct (q =? 0); [apply IH |].
      destruct (q =? 1); [| destruct (q =? 2)]; unfold Base64.emit;
        match goal with
        | |- context [Base64.a2b_loop r ?a ?b ?c] =>
          specialize (IH a b c); destruct (Base64.a2b_loop r a b c)
        end; cbn; intros E; try discriminate; apply IH; congruence.
Qed.


Lemma bytes_eqb_eq (a b : bytes) : AES.bytes_eqb a b = true <-> a = b.
Proof.
  unfold AES.bytes_eqb. destruct (list_eq_dec Byte.byte_eq_dec a b);
    split; congruence.
Qed.


Section GCMFacts.

Context {P : Primitives} {L : PrimitivesLaws P}.

Implicit Types (self : AESCryptoGCM.t) (g : rng).

Lemma drawn_lengths g :
  length (drawn_header g) = 16%nat /\ length (drawn_nonce g) = 16%nat.
Proof. split; apply random_length. Qed.

(** What [encrypt] returns on a text that encodes. *)
Lemma gcm_encrypt_eq self (text : str) g (plain : bytes) :
  AES_key_ok (AESCryptoGCM.key self) = true ->
  Utf8.encode text = Ok plain ->
  let k := AESCryptoGCM.key self in
  let ciphertext := gcm_encrypt_raw k (drawn_nonce g) plain in
  AESCryptoGCM.encrypt self text g
  = (Ok (envelope_of (drawn_header g) (drawn_nonce g)
           (gcm_digest k (drawn_nonce g) (drawn_header g) ciphertext)
           ciphertext),
     after_draws g).
Proof.
  intros Hk Hp. cbv zeta.
  destruct (drawn_lengths g) as [_ Hn].
  unfold drawn_header, drawn_nonce, after_draws in *.
  unfold AESCryptoGCM.encrypt.
  destruct (get_random_bytes 16 g) as [h g1]. cbn [fst snd] in *.
  destruct (get_random_bytes 16 g1) as [n g2]. cbn [fst snd] in *.
  f_equal. unfold AES.new_GCM. rewrite Hk.
  destruct n as [| n0 n']; [discriminate |].
  cbn [Py.bind]. rewrite Hp. cbn [Py.bind].
  unfold AES.encrypt_and_digest, AES.update.
  cbn [AES.gcm_key AES.nonce AES.assoc app].
  rewrite !b64text_text64. reflexivity.
Qed.

(** What [decrypt] does on a text whose first three fields have 24
    characters each. *)
Lemma gcm_decrypt_parts self (h n t c : str) :
  length h = 24%nat -> length n = 24%nat -> length t = 24%nat ->
  AESCryptoGCM.decrypt self (h ++ n ++ t ++ c)
  = (let* header := Base64.b64decode h in
     let* nonce := Base64.b64decode n in
     let* tag := Base64.b64decode t in
     let* ciphertext := Base64.b64decode c in
     let* cipher := AES.new_GCM (AESCryptoGCM.key self) nonce in
     let* plain :=
       AES.decrypt_and_verify (AES.update cipher header) ciphertext tag in
     Utf8.decode plain).
Proof.
  intros Hh Hn Ht. unfold AESCryptoGCM.decrypt.
  destruct (metadata_slices h n t c Hh Hn Ht) as (-> & -> & -> & ->).
  reflexivity.
Qed.

(** [decrypt] on the fields of an envelope, the tag and the ciphertext
    being any bytes. *)
Lemma gcm_decrypt_fields self (header nonce tag ciphertext : bytes) :
  AES_key_ok (AESCryptoGCM.key self) = true ->
  length header = 16%nat -> length nonce = 16%nat ->
  forall (t c : str), length t = 24%nat ->
  Base64.b64decode t = Ok tag -> Base64.b64decode c = Ok ciphertext ->
  AESCryptoGCM.decrypt self (text64 header ++ text64 nonce ++ t ++ c)
  = if AES.bytes_eqb tag
         (gcm_digest (AESCryptoGCM.key self) nonce header ciphertext)
    then Utf8.decode
           (gcm_decrypt_raw (AESCryptoGCM.key self) nonce ciphertext)
    else Raise ValueError.
Proof.
  intros Hk Hh Hn t c Ht Et Ec.
  rewrite gcm_decrypt_parts by (try apply text64_length16; assumption).
  rewrite !b64decode_text64, Et, Ec. cbn [Py.bind].
  unfold AES.new_GCM. rewrite Hk.
  destruct nonce as [| n0 n']; [discriminate |].
  cbn [Py.bind]. unfold AES.decrypt_and_verify, AES.update.
  cbn [AES.gcm_key AES.nonce AES.assoc app].
  now destruct (AES.bytes_eqb _ _).
Qed.

Lemma gcm_init_defined (key : pyval) :
  key_text key -> exists self, AESCryptoGCM.init key = Ok self.
Proof.
  intros Hk. unfold AESCryptoGCM.init, AESCryptoGCM.process_key.
  assert (Hb : exists b, AESCryptoGCM.key_bytes key = Ok b).
  { destruct key as [s | b]; cbn in *.
    - now apply encode_defined.
    - now exists b. }
  destruct Hb as [b ->]. cbn [Py.bind].
  destruct (32 <=? length b)%nat; eexists; reflexivity.
Qed.

(** [decrypt] reads back what [encrypt] wrote, whatever was drawn. *)
Lemma gcm_decrypt_encrypt self (text : str) g (plain : bytes) :
  AES_key_ok (AESCryptoGCM.key self) = true ->
  Utf8.encode text = Ok plain ->
  exists envelope,
    fst (AESCryptoGCM.encrypt self text g) = Ok envelope /\
    AESCryptoGCM.decrypt self envelope = Ok text.
Proof.
  intros Hk Hp. rewrite (gcm_encrypt_eq self text g plain Hk Hp).
  cbn [fst]. eexists. split; [reflexivity |].
  destruct (drawn_lengths g) as [Hh Hn]. unfold envelope_of.
  rewrite (gcm_decrypt_fields self _ _ _ _ Hk Hh Hn _ _
             (text64_length16 _ (gcm_digest_length _ _ _ _))
             (b64decode_text64 _) (b64decode_text64 _)).
  rewrite (proj2 (bytes_eqb_eq _ _) eq_refl), gcm_inverse.
  now apply decode_encode.
Qed.

(** [text[a:b]] of the first 72 characters, as slices of the text. *)
Lemma metadata_of_text (text : str) :
  firstn 24 (firstn 72 text) = slice 0 24 text /\
  slice 24 48 (firstn 72 text) = slice 24 48 text /\
  skipn 48 (firstn 72 text) = slice 48 72 text.
Proof.
  unfold slice. repeat split.
  - rewrite firstn_firstn. reflexivity.
  - change (skipn 24 (firstn 72 text))
      with (skipn 24 (firstn (24 + 48) text)).
    rewrite <- firstn_skipn_comm, firstn_firstn. reflexivity.
  - change (skipn 48 (firstn 72 text))
      with (skipn 48 (firstn (48 + 24) text)).
    rewrite <- firstn_skipn_comm. reflexivity.
Qed.

(** C6: the envelope is the text of the header, of the nonce, of the tag
    and of the ciphertext, in this order, where the header is the first
    draw of the generator, the nonce the second, the ciphertext the GCM
    encryption of the UTF-8 bytes of the text under the key and the
    nonce, and the tag the one of the ciphertext with the header as
    associated data; the first three are 16 bytes written as 24
    characters each, whatever the plaintext, so that the slices [0,24),
    [24,48), [48,72) and [72,end) are their texts and decode to them;
    and [decrypt] takes these four slices of any text it is given. *)
Theorem envelope_layout (key : pyval) self (text : str) (plain : bytes) g :
  AESCryptoGCM.init key = Ok self -> Utf8.encode text = Ok plain ->
  let header := drawn_header g in
  let nonce := drawn_nonce g in
  let ciphertext := gcm_encrypt_raw (AESCryptoGCM.key self) nonce plain in
  let tag := gcm_digest (AESCryptoGCM.key self) nonce header ciphertext in
  let envelope :=
    text64 header ++ text64 nonce ++ text64 tag ++ text64 ciphertext in
  AESCryptoGCM.encrypt self text g = (Ok envelope, after_draws g) /\
  (length header = 16%nat /\ length nonce = 16%nat /\
   length tag = 16%nat) /\
  (length (text64 header) = 24%nat /\ length (text64 nonce) = 24%nat /\
   length (text64 tag) = 24%nat) /\
  (slice 0 24 envelope = text64 header /\
   slice 24 48 envelope = text64 nonce /\
   slice 48 72 envelope = text64 tag /\
   skipn 72 envelope = text64 ciphertext) /\
  (Base64.b64decode (slice 0 24 envelope) = Ok header /\
   Base64.b64decode (slice 24 48 envelope) = Ok nonce /\
   Base64.b64decode (slice 48 72 envelope) = Ok tag /\
   Base64.b64decode (skipn 72 envelope) = Ok ciphertext) /\
  (forall input : str,
     AESCryptoGCM.decrypt self input
     = (let* header := Base64.b64decode (slice 0 24 input) in
        let* nonce := Base64.b64decode (slice 24 48 input) in
        let* tag := Base64.b64decode (slice 48 72 input) in
        let* ciphertext := Base64.b64decode (skipn 72 input) in
        let* cipher := AES.new_GCM (AESCryptoGCM.key self) nonce in
        let* plain :=
          AES.decrypt_and_verify (AES.update cipher header) ciphertext tag in
        Utf8.decode plain)).
Proof.
  intros Hinit Hp. cbv zeta.
  pose proof (init_key_ok key self Hinit) as Hk.
  destruct (drawn_lengths g) as [Hh Hn].
  set (ct := gcm_encrypt_raw (AESCryptoGCM.key self) (drawn_nonce g) plain).
  set (tag := gcm_digest (AESCryptoGCM.key self) (drawn_nonce g)
                         (drawn_header g) ct).
  assert (Ht : length tag = 16%nat) by apply gcm_digest_length.
  pose proof (text64_length16 _ Hh) as Hh'.
  pose proof (text64_length16 _ Hn) as Hn'.
  pose proof (text64_length16 _ Ht) as Ht'.
  destruct (metadata_slices _ _ _ (text64 ct) Hh' Hn' Ht')
    as (E1 & E2 & E3 & E4).
  destruct (metadata_of_text
              (text64 (drawn_header g) ++ text64 (drawn_nonce g)
               ++ text64 tag ++ text64 ct))
    as (F1 & F2 & F3).
  rewrite F1 in E1. rewrite F2 in E2. rewrite F3 in E3.
  split; [exact (gcm_encrypt_eq self text g plain Hk Hp) |].
  split; [repeat split; assumption |].
  split; [repeat split; assumption |].
  split; [repeat split; assumption |].
  split; [rewrite E1, E2, E3, E4, !b64decode_text64; repeat split |].
  intros input. unfold AESCryptoGCM.decrypt.
  destruct (metadata_of_text input) as (-> & -> & ->). reflexivity.
Qed.



End GCMFacts.

(** ** The ECB codec *)

(** The loop of [to_16] appends zero bytes only, and with 15 rounds it
    reaches a multiple of 16. *)
Lemma to_16_loop_zeros (fuel : nat) (k : bytes) :
  exists m, AESCrypto.to_16_loop fuel k = k ++ repeat x00 m.
Proof.
  revert k. induction fuel as [| f IH]; intros k; cbn [AESCrypto.to_16_loop].
  - exists 0%nat. cbn. rewrite app_nil_r. now destruct (_ =? 0)%nat.
  - destruct (length k mod 16 =? 0)%nat.
    + exists 0%nat. cbn. now rewrite app_nil_r.
    + destruct (IH (k ++ [x00])) as [m ->]. exists (S m).
      now rewrite <- app_assoc.
Qed.

Lemma to_16_loop_aligned (fuel : nat) (k : bytes) :
  ((16 - length k mod 16) mod 16 <= fuel)%nat ->
  aligned (AESCrypto.to_16_loop fuel k) = true.
Proof.
  revert k. induction fuel as [| f IH]; intros k H;
    cbn [AESCrypto.to_16_loop];
    destruct (Nat.eqb_spec (length k mod 16) 0) as [E | E].
  - unfold aligned. now rewrite E.
  - exfalso. pose proof (Nat.mod_upper_bound (length k) 16). lia.
  - unfold aligned. now rewrite E.
  - apply IH. rewrite length_app. cbn [length].
    pose proof (Nat.mod_upper_bound (length k) 16).
    pose proof (Nat.mod_upper_bound (length k + 1) 16). lia.
Qed.

Lemma to_16_text (p : str) (b : bytes) :
  Utf8.encode p = Ok b ->
  exists m, AESCrypto.to_16 (PStr p) = Ok (b ++ repeat x00 m)
            /\ aligned (b ++ repeat x00 m) = true.
Proof.
  intros Hb. unfold AESCrypto.to_16. cbn [py_bytes_utf8]. rewrite Hb.
  cbn [Py.bind].
  destruct (to_16_loop_zeros 15 b) as [m Hm]. exists m.
  rewrite <- Hm. split; [reflexivity |].
  apply to_16_loop_aligned.
  pose proof (Nat.mod_upper_bound (length b) 16). lia.
Qed.

(** [rstrip] removes the zero bytes that [to_16] appended, and nothing
    else when the bytes did not end in zero. *)
Lemma rstrip0_zeros (m : nat) : rstrip0 (repeat x00 m) = [].
Proof. induction m as [| m IH]; cbn; [reflexivity | now rewrite IH]. Qed.

Lemma rstrip0_app_zeros (b : bytes) (m : nat) :
  rstrip0 (b ++ repeat x00 m) = rstrip0 b.
Proof.
  induction b as [| a r IH]; cbn [app rstrip0].
  - apply rstrip0_zeros.
  - now rewrite IH.
Qed.

Lemma rstrip0_id (b : bytes) : ~ ends_in_zero b -> rstrip0 b = b.
Proof.
  induction b as [| a r IH]; intros H; cbn [rstrip0].
  - reflexivity.
  - destruct r as [| a' r'].
    + cbn. destruct (N.eqb_spec (ord a) 0) as [E | E]; [| reflexivity].
      exfalso. apply H. exists []. cbn. f_equal.
      apply ord_inj. exact E.
    + rewrite IH; [reflexivity |].
      intros [pre Hpre]. apply H. exists (a :: pre). cbn. now rewrite Hpre.
Qed.

Lemma rstrip0_snoc (l : bytes) (b : byte) :
  ord b <> 0 -> rstrip0 (l ++ [b]) = l ++ [b].
Proof.
  intros Hb. apply rstrip0_id. intros [pre H].
  apply app_inj_tail in H. destruct H as [_ ->]. now apply Hb.
Qed.

(** [encodebytes], its newlines removed, is the base64 text. *)
Lemma remove_newlines_b64 (l : bytes) :
  b64_chars l -> remove_newlines (map ord l) = map ord l.
Proof.
  induction 1 as [| a r [_ Ha] _ IH]; [reflexivity |].
  cbn [map]. unfold remove_newlines in *. cbn [filter].
  rewrite (proj2 (N.eqb_neq _ _) Ha). cbn [negb]. now rewrite IH.
Qed.

Lemma b2a_firstn_skipn (s : bytes) :
  Base64.b2a (firstn Base64.MAXBINSIZE s)
  ++ Base64.b2a (skipn Base64.MAXBINSIZE s) = Base64.b2a s.
Proof.
  destruct (Nat.le_gt_cases Base64.MAXBINSIZE (length s)) as [H | H].
  - rewrite <- b2a_app, firstn_skipn; [reflexivity |].
    now rewrite firstn_length_le by exact H.
  - rewrite firstn_all2, skipn_all2 by lia. apply app_nil_r.
Qed.

Lemma chunks_text (fuel : nat) (s : bytes) :
  (length s <= fuel)%nat ->
  remove_newlines
    (map ord (concat (map (fun chunk => Base64.b2a chunk ++ [Base64.NL])
                          (Base64.chunks fuel s))))
  = map ord (Base64.b2a s)
  /\ ascii_bytes (concat (map (fun chunk => Base64.b2a chunk ++ [Base64.NL])
                              (Base64.chunks fuel s))).
Proof.
  revert s. induction fuel as [| f IH]; intros s H.
  - destruct s; [| cbn in H; lia]. split; [reflexivity | constructor].
  - destruct s as [| a r]; [split; [reflexivity | constructor] |].
    cbn [Base64.chunks map concat].
    set (s := a :: r) in *.
    assert (Hs : (length (skipn Base64.MAXBINSIZE s) <= f)%nat).
    { rewrite length_skipn. unfold Base64.MAXBINSIZE.
      subst s. cbn [length] in *. lia. }
    destruct (IH _ Hs) as [IH1 IH2]. split.
    + rewrite !map_app. unfold remove_newlines in *.
      rewrite !filter_app, IH1.
      fold (remove_newlines (map ord (Base64.b2a (firstn Base64.MAXBINSIZE s)))).
      rewrite remove_newlines_b64 by apply b2a_chars.
      change (filter (fun c : N => negb (c =? 10)) (map ord [Base64.NL]))
        with (@nil N).
      rewrite app_nil_r, <- map_app. now rewrite b2a_firstn_skipn.
    + apply Forall_app. split; [| exact IH2].
      apply Forall_app. split; [apply b64_chars_ascii, b2a_chars |].
      repeat constructor.
Qed.

Lemma encodebytes_text (ct : bytes) :
  (let* s := Utf8.decode (Base64.encodebytes ct) in Ok (remove_newlines s))
  = Ok (text64 ct).
Proof.
  unfold Base64.encodebytes.
  destruct (chunks_text (length ct) ct (Nat.le_refl _)) as [H1 H2].
  rewrite (decode_ascii _ H2). cbn [Py.bind]. now rewrite H1.
Qed.

Section ECBFacts.

Context {P : Primitives} {L : PrimitivesLaws P}.

(** C7: with a key that [AES.new] accepts, a text whose UTF-8 bytes do
    not end in a zero byte is read back by [decrypt] from what [encrypt]
    wrote; the text written is the base64 text of the ECB encryption,
    under the key alone, of the bytes followed by zero bytes up to a
    multiple of 16. *)
Theorem ecb_roundtrip (key : pyval) (self : AESCrypto.t) (p : str)
    (b : bytes) :
  AESCrypto.init key = Ok self ->
  AES_key_ok (AESCrypto.key self) = true ->
  Utf8.encode p = Ok b -> ~ ends_in_zero b ->
  exists (c : str) (m : nat),
    AESCrypto.encrypt self p = Ok c /\
    c = text64 (ecb_encrypt_raw (AESCrypto.key self) (b ++ repeat x00 m)) /\
    (length (b ++ repeat x00 m) mod 16 = 0)%nat /\ (m < 16)%nat /\
    AESCrypto.decrypt self c = Ok p.
Proof.
  intros _ Hk Hb Hz.
  destruct (to_16_text p b Hb) as (m & Hm & Ha).
  set (padded := b ++ repeat x00 m) in *.
  set (ct := ecb_encrypt_raw (AESCrypto.key self) padded).
  exists (text64 ct), m.
  assert (Hct : aligned ct = true).
  { unfold aligned, ct. rewrite ecb_length. exact Ha. }
  split; [| split; [reflexivity | split; [| split]]].
  - unfold AESCrypto.encrypt, AESCrypto.aes, AES.new_ECB. rewrite Hk.
    cbn [Py.bind]. rewrite Hm. cbn [Py.bind].
    unfold AES.ecb_encrypt. rewrite Ha. cbn [Py.bind].
    apply encodebytes_text.
  - unfold aligned in Ha. now apply Nat.eqb_eq in Ha.
  - unfold AESCrypto.to_16 in Hm. cbn [py_bytes_utf8] in Hm.
    rewrite Hb in Hm. cbn [Py.bind] in Hm. apply Ok_inj in Hm.
    destruct (Nat.lt_ge_cases m 16) as [Hlt | Hge]; [exact Hlt |].
    exfalso. revert Hm Hge. clear. unfold padded. clear padded.
    intros Hm Hge.
    assert (Hlen : forall fuel k,
               (length (AESCrypto.to_16_loop fuel k) <= length k + fuel)%nat).
    { induction fuel as [| f IH]; intros k; cbn [AESCrypto.to_16_loop];
        destruct (_ =? 0)%nat; try lia.
      specialize (IH (k ++ [x00])). rewrite length_app in IH.
      cbn [length] in IH. lia. }
    specialize (Hlen 15%nat b). rewrite Hm, length_app, repeat_length in Hlen.
    lia.
  - unfold AESCrypto.decrypt, AESCrypto.aes, AES.new_ECB. rewrite Hk.
    cbn [Py.bind]. unfold text64.
    rewrite encode_map_ord by apply b64_chars_ascii, b2a_chars.
    cbn [Py.bind]. unfold Base64.decodebytes. rewrite a2b_b2a.
    cbn [Py.bind]. unfold AES.ecb_decrypt. rewrite Hct. cbn [Py.bind].
    unfold ct. rewrite ecb_inverse by assumption.
    unfold padded. rewrite rstrip0_app_zeros, rstrip0_id by exact Hz.
    now apply decode_encode.
Qed.

End ECBFacts.

(** ** The small instance satisfies the laws *)

Lemma bchr_mod (n m : N) : n mod 256 = m mod 256 -> bchr n = bchr m.
Proof. intros H. unfold bchr. now rewrite H. Qed.

Lemma ord_bchr_mod (n : N) : ord (bchr n) = n mod 256.
Proof.
  rewrite (bchr_mod n (n mod 256)).
  - apply ord_bchr. now apply N.mod_lt.
  - now rewrite N.Div0.mod_mod.
Qed.

Lemma sub_add_bytes (k : N) (d : bytes) :
  Toy.sub_bytes k (Toy.add_bytes k d) = d.
Proof.
  unfold Toy.sub_bytes, Toy.add_bytes. rewrite map_map.
  rewrite <- (map_id d) at 2. apply map_ext. intros b.
  rewrite ord_bchr_mod. transitivity (bchr (ord b)); [| apply bchr_ord].
  apply bchr_mod. pose proof (ord_bound b). lia.
Qed.

Lemma toy_laws : PrimitivesLaws Toy.primitives.
Proof.
  constructor; cbn; intros.
  - apply length_map.
  - apply sub_add_bytes.
  - apply sub_add_bytes.
  - reflexivity.
  - apply repeat_length.
Qed.

(** ** Key derivation and construction *)

(** C2, as the code has it: a key that is not [bytes] is encoded as
    UTF-8; from 32 bytes on, the key is the first 32 bytes; a shorter
    secret of [n] bytes is followed by [32 - n] bytes, each of value
    [32 - n]; the key has 32 bytes in both cases. *)
Theorem process_key_pkcs7 (key : pyval) (b : bytes) :
  AESCryptoGCM.key_bytes key = Ok b ->
  (forall s, key = PStr s -> Utf8.encode s = Ok b) /\
  (forall b', key = PBytes b' -> b' = b) /\
  ((32 <= length b)%nat ->
   AESCryptoGCM.process_key key = Ok (firstn 32 b)) /\
  ((length b < 32)%nat ->
   AESCryptoGCM.process_key key
   = Ok (b ++ repeat (bchr (N.of_nat (32 - length b))) (32 - length b))) /\
  exists k, AESCryptoGCM.process_key key = Ok k /\ length k = 32%nat.
Proof.
  intros Hb.
  destruct (process_key_cases key b Hb) as [Hlong Hshort].
  repeat split; try assumption.
  - intros s ->. exact Hb.
  - intros b' ->. cbn in Hb. congruence.
  - destruct (Nat.leb_spec 32 (length b)) as [H | H].
    + eexists. split; [exact (Hlong H) |].
      apply (process_key_length key). exact (Hlong H).
    + eexists. split; [exact (Hshort H) |].
      apply (process_key_length key). exact (Hshort H).
Qed.

Lemma process_key_pkcs7_witness :
  AESCryptoGCM.process_key (PStr [97])
  = Ok (x61 :: repeat x1f 31).
Proof.
  destruct (process_key_pkcs7 (PStr [97]) [x61] eq_refl)
    as (_ & _ & _ & Hshort & _).
  rewrite Hshort by (cbn; lia). reflexivity.
Defined.

(** The one-byte secret [b"a"] is a secret shorter than 32 bytes whose
    key is not the secret followed by zero bytes. *)
Lemma process_key_not_zero_padded :
  AESCryptoGCM.key_bytes (PBytes [x61]) = Ok [x61] /\
  (length [x61] < 32)%nat /\
  AESCryptoGCM.process_key (PBytes [x61])
  <> Ok ([x61] ++ repeat x00 (32 - length [x61])).
Proof.
  split; [reflexivity |]. split; [cbn; lia |].
  vm_compute. discriminate.
Qed.



(** ** The facade on the small instance *)

Lemma init_active_first_witness :
  Crypto.init Toy.methods Toy.conf
  = Ok {| Crypto.methods :=
            [@AESCryptoGCM.as_codec Toy.primitives Toy.aes_crypto;
             @AESCrypto.as_codec Toy.primitives Toy.aes_ecb_crypto;
             Toy.gm_sm2_crypto] |}.
Proof.
  apply (proj2 (init_active_first N Toy.methods Toy.conf)
           (@AESCryptoGCM.as_codec Toy.primitives Toy.aes_crypto)
           [("aes_ecb"%string,
             @AESCrypto.as_codec Toy.primitives Toy.aes_ecb_crypto)]
           [("gm_sm2"%string, Toy.gm_sm2_crypto)]).
  - reflexivity.
  - cbn. intros [H | []]. discriminate H.
Defined.

Lemma encrypt_delegates_witness :
  exists active others,
    Crypto.methods Toy.crypto = active :: others /\
    nth_error (Crypto.methods Toy.crypto) 0 = Some active /\
    forall text g,
      Crypto.encrypt Toy.crypto text g = codec_encrypt active text g.
Proof.
  apply (encrypt_delegates N Toy.methods Toy.conf Toy.crypto).
  reflexivity.
Defined.

(** A text written by the ECB codec is read back through the facade
    whose active codec is the GCM codec. *)
Lemma decrypt_fallback_order_witness :
  Crypto.decrypt Toy.crypto (Toy.text_of "ysfOztFiYmJiYmJiYmJiYg=="%string)
  = Ok (Some (Toy.text_of "hello"%string)).
Proof.
  destruct (decrypt_fallback_order N Toy.methods Toy.conf Toy.crypto
              (@AESCryptoGCM.as_codec Toy.primitives Toy.aes_crypto)
              [("aes_ecb"%string,
                @AESCrypto.as_codec Toy.primitives Toy.aes_ecb_crypto)]
              [("gm_sm2"%string, Toy.gm_sm2_crypto)]
              (Toy.text_of "ysfOztFiYmJiYmJiYmJiYg=="%string))
    as (_ & _ & _ & H).
  - reflexivity.
  - cbn. intros [H | []]. discriminate H.
  - reflexivity.
  - apply (H [@AESCryptoGCM.as_codec Toy.primitives Toy.aes_crypto]
             (@AESCrypto.as_codec Toy.primitives Toy.aes_ecb_crypto)
             [Toy.gm_sm2_crypto]).
    + reflexivity.
    + constructor; [| constructor]. exists ValueError.
      split; vm_compute; reflexivity.
    + vm_compute. reflexivity.
Defined.

Lemma decrypt_exhausted_witness :
  Crypto.decrypt Toy.crypto (Toy.text_of "A"%string) = Ok None.
Proof.
  apply (decrypt_exhausted N Toy.crypto).
  repeat constructor.
  - exists binascii_Error. split; vm_compute; reflexivity.
  - exists binascii_Error. split; vm_compute; reflexivity.
  - exists ValueError. split; vm_compute; reflexivity.
Defined.

(** A codec that raises [TypeError], and the ECB codec raising
    [UnicodeEncodeError] on a lone surrogate: neither class is among the
    three of the specification, and the facade goes on to the next
    codec instead of raising. *)
Lemma decrypt_swallows_other_classes :
  spec_recoverable TypeError = false /\
  spec_recoverable UnicodeEncodeError = false /\
  (codec_decrypt ToyMore.raising_TypeError [65] = Raise TypeError /\
   Crypto.decrypt
     {| Crypto.methods := [ToyMore.raising_TypeError; ToyMore.returning [66]] |}
     [65] = Ok (Some [66])) /\
  (@AESCrypto.decrypt Toy.primitives Toy.aes_ecb_crypto [0xD800]
   = Raise UnicodeEncodeError /\
   Crypto.decrypt
     {| Crypto.methods :=
          [@AESCrypto.as_codec Toy.primitives Toy.aes_ecb_crypto;
           ToyMore.returning [66]] |}
     [0xD800] = Ok (Some [66])).
Proof. repeat split; vm_compute; reflexivity. Qed.

(** ** The codecs on the small instance *)

Lemma ecb_roundtrip_witness :
  exists (c : str) (m : nat),
    @AESCrypto.encrypt Toy.primitives Toy.aes_ecb_crypto
      (Toy.text_of "hello"%string) = Ok c /\
    c = text64 (@ecb_encrypt_raw Toy.primitives
                  (AESCrypto.key Toy.aes_ecb_crypto)
                  (String.list_byte_of_string "hello"%string
                   ++ repeat x00 m)) /\
    (length (String.list_byte_of_string "hello"%string ++ repeat x00 m)
     mod 16 = 0)%nat /\ (m < 16)%nat /\
    @AESCrypto.decrypt Toy.primitives Toy.aes_ecb_crypto c
    = Ok (Toy.text_of "hello"%string).
Proof.
  apply (@ecb_roundtrip Toy.primitives toy_laws (SECRET_KEY Toy.conf)
           Toy.aes_ecb_crypto (Toy.text_of "hello"%string)
           (String.list_byte_of_string "hello"%string)).
  - reflexivity.
  - reflexivity.
  - reflexivity.
  - intros [pre H]. apply (f_equal (@rev byte)) in H.
    rewrite rev_app_distr in H. simpl in H. discriminate H.
Defined.

Lemma envelope_layout_witness :
  let header := @drawn_header Toy.primitives 65 in
  let nonce := @drawn_nonce Toy.primitives 65 in
  let ciphertext :=
    @gcm_encrypt_raw Toy.primitives (AESCryptoGCM.key Toy.aes_crypto) nonce
      (String.list_byte_of_string "hello"%string) in
  let tag :=
    @gcm_digest Toy.primitives (AESCryptoGCM.key Toy.aes_crypto) nonce
      header ciphertext in
  let envelope :=
    text64 header ++ text64 nonce ++ text64 tag ++ text64 ciphertext in
  @AESCryptoGCM.encrypt Toy.primitives Toy.aes_crypto
    (Toy.text_of "hello"%string) 65
  = (Ok envelope, @after_draws Toy.primitives 65) /\
  Base64.b64decode (slice 48 72 envelope) = Ok tag.
Proof.
  destruct (@envelope_layout Toy.primitives toy_laws (SECRET_KEY Toy.conf)
              Toy.aes_crypto (Toy.text_of "hello"%string)
              (String.list_byte_of_string "hello"%string) 65
              eq_refl eq_refl)
    as (H1 & _ & _ & _ & (_ & _ & H3 & _) & _).
  split; [exact H1 | exact H3].
Defined.







(* ================================================================= *)
(** * Further properties of the module *)

(** ** What the decoders raise *)

Lemma encode_cp_raises (c : N) (e : exn) :
  Utf8.encode_cp c = Raise e -> e = UnicodeEncodeError.
Proof.
  unfold Utf8.encode_cp.
  repeat match goal with
         | |- context [if ?b then _ else _] => destruct b
         end; congruence.
Qed.

Lemma encode_raises (s : str) (e : exn) :
  Utf8.encode s = Raise e -> e = UnicodeEncodeError.
Proof.
  induction s as [| c r IH]; cbn [Utf8.encode]; [discriminate |].
  destruct (Utf8.encode_cp c) as [bc |] eqn:Ec; cbn [Py.bind].
  - destruct (Utf8.encode r) as [br |]; cbn [Py.bind]; [discriminate |].
    intros H. apply IH. congruence.
  - intros H. apply (encode_cp_raises c). congruence.
Qed.

Lemma cons_cp_raises (c : N) (m : result str) (e : exn) :
  Utf8.cons_cp c m = Raise e -> m = Raise e.
Proof. destruct m; cbn; congruence. Qed.

Lemma decode_raises_upto (n : nat) (l : bytes) (e : exn) :
  (length l <= n)%nat -> Utf8.decode l = Raise e -> e = UnicodeDecodeError.
Proof.
  revert l. induction n as [| n IH]; intros l Hl;
    destruct l as [| b0 l1]; cbn [Utf8.decode]; cbv zeta;
    try discriminate; [cbn in Hl; lia |].
  cbn [length] in Hl.
  repeat match goal with
         | |- context [if ?b then _ else _] => destruct b
         | |- context [match ?x with [] => _ | _ :: _ => _ end] =>
           is_var x; destruct x; cbn [length] in Hl
         end;
    try (intros H; congruence);
    intros H; apply cons_cp_raises in H; apply IH in H;
      try exact H; lia.
Qed.

Lemma decode_raises (l : bytes) (e : exn) :
  Utf8.decode l = Raise e -> e = UnicodeDecodeError.
Proof. apply (decode_raises_upto (length l)). apply Nat.le_refl. Qed.

Lemma a2b_raises (l : bytes) (e : exn) :
  Base64.a2b l = Raise e -> e = binascii_Error.
Proof. apply a2b_loop_raises. Qed.

(** The loop of the facade returns when no codec raises another class
    than the caught ones. *)
Lemma decrypt_loop_returns {G} (codecs : list (codec G)) (text : str) :
  Forall (fun c => forall e, codec_decrypt c text = Raise e ->
                             Crypto.caught e = true) codecs ->
  exists r, Crypto.decrypt_loop codecs text = Ok r.
Proof.
  induction 1 as [| c l Hc _ IH]; cbn [Crypto.decrypt_loop].
  - now exists None.
  - destruct (codec_decrypt c text) as [v | e].
    + now exists (Some v).
    + now rewrite (Hc e eq_refl).
Qed.

Section DecryptErrors.

Context {P : Primitives}.

Lemma ecb_decrypt_raises (self : AESCrypto.t) (text : str) (e : exn) :
  AESCrypto.decrypt self text = Raise e ->
  e = ValueError \/ e = UnicodeEncodeError \/ e = binascii_Error
  \/ e = UnicodeDecodeError.
Proof.
  unfold AESCrypto.decrypt, AESCrypto.aes, AES.new_ECB.
  destruct (AES_key_ok _); cbn [Py.bind]; [| intros [= <-]; tauto].
  destruct (Utf8.encode text) as [raw |] eqn:E1; cbn [Py.bind];
    [| intros [= <-]; apply encode_raises in E1; tauto].
  unfold Base64.decodebytes.
  destruct (Base64.a2b raw) as [ct |] eqn:E2; cbn [Py.bind];
    [| intros [= <-]; apply a2b_raises in E2; tauto].
  unfold AES.ecb_decrypt. destruct (aligned ct); cbn [Py.bind];
    [| intros [= <-]; tauto].
  intros H. apply decode_raises in H. tauto.
Qed.

Lemma gcm_decrypt_raises (self : AESCryptoGCM.t) (text : str) (e : exn) :
  AESCryptoGCM.decrypt self text = Raise e ->
  e = ValueError \/ e = binascii_Error \/ e = UnicodeDecodeError.
Proof.
  assert (Hb : forall s x, Base64.b64decode s = Raise x ->
                           x = ValueError \/ x = binascii_Error).
  { intros s x. unfold Base64.b64decode.
    destruct (Utf8.encode_ascii s).
    - intros H. apply a2b_raises in H. tauto.
    - intros [= <-]. tauto. }
  unfold AESCryptoGCM.decrypt.
  repeat match goal with
         | |- context [Base64.b64decode ?s] =>
           let E := fresh "E" in
           destruct (Base64.b64decode s) eqn:E; cbn [Py.bind];
           [| intros [= <-]; apply Hb in E; tauto]
         end.
  unfold AES.new_GCM.
  match goal with
  | |- context [match ?n with [] => _ | _ :: _ => _ end] => destruct n
  end; cbn [Py.bind]; [intros [= <-]; tauto |].
  destruct (AES_key_ok _); cbn [Py.bind]; [| intros [= <-]; tauto].
  unfold AES.decrypt_and_verify.
  destruct (AES.bytes_eqb _ _); cbn [Py.bind]; [| intros [= <-]; tauto].
  intros H. apply decode_raises in H. tauto.
Qed.

(** X1: whatever the key and the text, [AESCrypto.decrypt] and
    [AESCryptoGCM.decrypt] raise nothing but [ValueError] and its
    subclasses ([binascii.Error], [UnicodeEncodeError],
    [UnicodeDecodeError]): classes that the loop of the facade catches. *)
Theorem aes_decrypt_errors_caught (a : aes_object) (text : str) (e : exn) :
  codec_decrypt (aes_codec a) text = Raise e ->
  isinstance e ValueError = true /\ Crypto.caught e = true.
Proof.
  destruct a as [c | c]; cbn [aes_codec AESCrypto.as_codec
                                AESCryptoGCM.as_codec codec_decrypt];
    intros H.
  - apply ecb_decrypt_raises in H.
    destruct H as [-> | [-> | [-> | ->]]]; split; reflexivity.
  - apply gcm_decrypt_raises in H.
    destruct H as [-> | [-> | ->]]; split; reflexivity.
Qed.

(** X2: a facade whose codecs are AES codecs only never raises from
    [decrypt]: on every text it returns a text or [None]. *)
Theorem aes_facade_decrypt_returns (self : Crypto.t rng) (text : str) :
  Forall (fun c => exists a, c = aes_codec a) (Crypto.methods self) ->
  exists r, Crypto.decrypt self text = Ok r.
Proof.
  intros H. unfold Crypto.decrypt. apply decrypt_loop_returns.
  revert H. apply Forall_impl. intros c [a ->] e He.
  destruct a as [x | x]; cbn [aes_codec AESCrypto.as_codec
                                AESCryptoGCM.as_codec codec_decrypt] in He.
  - apply ecb_decrypt_raises in He.
    destruct He as [-> | [-> | [-> | ->]]]; reflexivity.
  - apply gcm_decrypt_raises in He.
    destruct He as [-> | [-> | ->]]; reflexivity.
Qed.

End DecryptErrors.

(** ** The ECB codec on every text *)

Lemma rstrip0_app (x y : bytes) :
  rstrip0 (x ++ y)
  = match rstrip0 y with
    | [] => rstrip0 x
    | _ => x ++ rstrip0 y
    end.
Proof.
  induction x as [| a r IH]; cbn [app rstrip0].
  - now destruct (rstrip0 y).
  - rewrite IH. destruct (rstrip0 y) as [| y0 y']; [reflexivity |].
    now destruct r.
Qed.

(** The bytes of a code point: a zero byte for the code point zero, and
    bytes that end in no zero byte for the others. *)
Lemma encode_cp_last (c : N) (bc : bytes) :
  Utf8.encode_cp c = Ok bc ->
  (c = 0 -> bc = [x00]) /\ (c <> 0 -> rstrip0 bc = bc /\ bc <> []).
Proof.
  unfold Utf8.encode_cp. intros H. split.
  - intros ->. cbn in H. congruence.
  - intros Hc.
    destruct (N.ltb_spec c 0x80).
    { apply Ok_inj in H. subst bc. split; [| discriminate].
      apply (rstrip0_snoc []). rewrite ord_bchr by lia. exact Hc. }
    destruct (N.ltb_spec c 0x800).
    { apply Ok_inj in H. subst bc. split; [| discriminate].
      apply (rstrip0_snoc [_]). rewrite ord_bchr by lia. lia. }
    destruct (N.ltb_spec c 0x10000).
    { destruct ((0xD800 <=? c) && (c <=? 0xDFFF)); [discriminate |].
      apply Ok_inj in H. subst bc. split; [| discriminate].
      apply (rstrip0_snoc [_; _]). rewrite ord_bchr by lia. lia. }
    destruct (c <=? 0x10FFFF); [| discriminate].
    apply Ok_inj in H. subst bc. split; [| discriminate].
    apply (rstrip0_snoc [_; _; _]). rewrite ord_bchr by lia. lia.
Qed.

(** Stripping the zero bytes of the encoding is encoding the text
    stripped of its trailing NUL characters. *)
Lemma encode_rstrip (p : str) (b : bytes) :
  Utf8.encode p = Ok b -> Utf8.encode (rstrip_nul p) = Ok (rstrip0 b).
Proof.
  revert b. induction p as [| c r IH]; intros b; cbn [Utf8.encode].
  - intros H. apply Ok_inj in H. now subst b.
  - destruct (Utf8.encode_cp c) as [bc |] eqn:Ec; cbn [Py.bind];
      [| discriminate].
    destruct (Utf8.encode r) as [br |] eqn:Er; cbn [Py.bind];
      [| discriminate].
    intros H. apply Ok_inj in H. subst b.
    specialize (IH br eq_refl). rewrite rstrip0_app.
    destruct (encode_cp_last c bc Ec) as [Hzero Hnonzero].
    cbn [rstrip_nul].
    destruct (rstrip_nul r) as [| c' r'] eqn:Es.
    + cbn in IH. apply Ok_inj in IH. rewrite <- IH.
      destruct (N.eqb_spec c 0) as [Hc | Hc].
      * rewrite (Hzero Hc). reflexivity.
      * destruct (Hnonzero Hc) as [-> _]. cbn [Utf8.encode].
        rewrite Ec. cbn. now rewrite app_nil_r.
    + cbn [Utf8.encode] in *. rewrite Ec. cbn [Py.bind].
      destruct (Utf8.encode_cp c') as [bc' |] eqn:Ec'; cbn [Py.bind] in *;
        [| discriminate].
      destruct (Utf8.encode r') as [br' |]; cbn [Py.bind] in *;
        [| discriminate].
      apply Ok_inj in IH. rewrite <- IH.
      destruct (bc' ++ br') eqn:Eb; [| reflexivity].
      exfalso. apply app_eq_nil in Eb. destruct Eb as [-> _].
      unfold Utf8.encode_cp in Ec'.
      repeat match type of Ec' with
             | context [if ?x then _ else _] => destruct x
             end; discriminate.
Qed.

Section ECBEveryText.

Context {P : Primitives} {L : PrimitivesLaws P}.

(** What [encrypt] writes, and what [decrypt] reads of it. *)
Lemma ecb_encrypt_eq (self : AESCrypto.t) (p : str) (b : bytes) :
  AES_key_ok (AESCrypto.key self) = true -> Utf8.encode p = Ok b ->
  exists m,
    aligned (b ++ repeat x00 m) = true /\
    AESCrypto.encrypt self p
    = Ok (text64 (ecb_encrypt_raw (AESCrypto.key self)
                                  (b ++ repeat x00 m))).
Proof.
  intros Hk Hb. destruct (to_16_text p b Hb) as (m & Hm & Ha).
  exists m. split; [exact Ha |].
  unfold AESCrypto.encrypt, AESCrypto.aes, AES.new_ECB. rewrite Hk.
  cbn [Py.bind]. rewrite Hm. cbn [Py.bind].
  unfold AES.ecb_encrypt. rewrite Ha. cbn [Py.bind].
  apply encodebytes_text.
Qed.

Lemma ecb_decrypt_text64 (self : AESCrypto.t) (d : bytes) :
  AES_key_ok (AESCrypto.key self) = true -> aligned d = true ->
  AESCrypto.decrypt self (text64 (ecb_encrypt_raw (AESCrypto.key self) d))
  = Utf8.decode (rstrip0 d).
Proof.
  intros Hk Ha.
  unfold AESCrypto.decrypt, AESCrypto.aes, AES.new_ECB. rewrite Hk.
  cbn [Py.bind]. unfold text64.
  rewrite encode_map_ord by apply b64_chars_ascii, b2a_chars.
  cbn [Py.bind]. unfold Base64.decodebytes. rewrite a2b_b2a.
  cbn [Py.bind]. unfold AES.ecb_decrypt.
  assert (Hct : aligned (ecb_encrypt_raw (AESCrypto.key self) d) = true).
  { unfold aligned. rewrite ecb_length. exact Ha. }
  rewrite Hct. cbn [Py.bind]. now rewrite ecb_inverse.
Qed.

(** X3: with a key that [AES.new] accepts, [decrypt] after [encrypt]
    returns, for every text, the text without its trailing NUL
    characters: these are lost, and nothing else is. *)
Theorem ecb_roundtrip_strips_nul (self : AESCrypto.t) (p : str) :
  AES_key_ok (AESCrypto.key self) = true -> unicode_text p ->
  exists c, AESCrypto.encrypt self p = Ok c /\
            AESCrypto.decrypt self c = Ok (rstrip_nul p).
Proof.
  intros Hk Hp. apply encode_defined in Hp. destruct Hp as [b Hb].
  destruct (ecb_encrypt_eq self p b Hk Hb) as (m & Ha & He).
  eexists. split; [exact He |].
  rewrite ecb_decrypt_text64 by assumption.
  rewrite rstrip0_app_zeros. apply decode_encode.
  now apply encode_rstrip.
Qed.

(** X4: [encrypt] raises [UnicodeEncodeError] exactly on the texts with
    a lone surrogate, under a key that [AES.new] accepts; under another
    key it raises [ValueError] on every text. *)
Theorem ecb_encrypt_errors (self : AESCrypto.t) (p : str) :
  (AES_key_ok (AESCrypto.key self) = true ->
   (unicode_text p <-> exists c, AESCrypto.encrypt self p = Ok c) /\
   (~ unicode_text p <->
    AESCrypto.encrypt self p = Raise UnicodeEncodeError)) /\
  (AES_key_ok (AESCrypto.key self) = false ->
   AESCrypto.encrypt self p = Raise ValueError
   /\ AESCrypto.decrypt self p = Raise ValueError).
Proof.
  split.
  - intros Hk.
    assert (Hbad : ~ unicode_text p ->
                   AESCrypto.encrypt self p = Raise UnicodeEncodeError).
    { intros Hn. unfold AESCrypto.encrypt, AESCrypto.aes, AES.new_ECB.
      rewrite Hk. cbn [Py.bind]. unfold AESCrypto.to_16.
      cbn [py_bytes_utf8].
      destruct (Utf8.encode p) as [b |] eqn:Eb.
      - exfalso. apply Hn. apply encode_defined. now exists b.
      - now rewrite (encode_raises p e Eb). }
    assert (Hgood : unicode_text p ->
                    exists c, AESCrypto.encrypt self p = Ok c).
    { intros Hp. apply encode_defined in Hp. destruct Hp as [b Hb].
      destruct (ecb_encrypt_eq self p b Hk Hb) as (m & _ & He).
      eexists. exact He. }
    split; split; try assumption.
    + intros [c Hc] . destruct (encode_defined p) as [_ Hd]. apply Hd.
      destruct (Utf8.encode p) as [b |] eqn:Eb; [now exists b |].
      exfalso.
      assert (Hn : ~ unicode_text p).
      { intros Hp. apply encode_defined in Hp.
        destruct Hp as [b Hb]. congruence. }
      rewrite (Hbad Hn) in Hc. discriminate.
    + intros He Hp. destruct (Hgood Hp) as [c Hc]. congruence.
  - intros Hk. unfold AESCrypto.encrypt, AESCrypto.decrypt,
                 AESCrypto.aes, AES.new_ECB.
    rewrite Hk. split; reflexivity.
Qed.

End ECBEveryText.

(** ** Keys *)

Lemma Forall_firstn_of {A} (Q : A -> Prop) (n : nat) (l : list A) :
  Forall Q l -> Forall Q (firstn n l).
Proof.
  intros H. revert n. induction H as [| a r Ha _ IH]; intros [| n];
    cbn [firstn]; constructor; auto.
Qed.

Lemma Forall_skipn_of {A} (Q : A -> Prop) (n : nat) (l : list A) :
  Forall Q l -> Forall Q (skipn n l).
Proof.
  intros H. revert n. induction H as [| a r Ha Hr IH]; intros [| n];
    cbn [skipn]; auto.
Qed.

Lemma to_16_loop_length (fuel : nat) (k : bytes) :
  (length (AESCrypto.to_16_loop fuel k) <= length k + fuel)%nat.
Proof.
  revert k. induction fuel as [| f IH]; intros k;
    cbn [AESCrypto.to_16_loop]; destruct (_ =? 0)%nat; try lia.
  specialize (IH (k ++ [x00])). rewrite length_app in IH.
  cbn [length] in IH. lia.
Qed.

(** [to_16] on the bytes of a text: fewer than 16 zero bytes are
    appended, up to a multiple of 16. *)
Lemma to_16_padding (b : bytes) :
  exists m, AESCrypto.to_16_loop 15 b = b ++ repeat x00 m
            /\ (m < 16)%nat /\ (length (b ++ repeat x00 m) mod 16 = 0)%nat.
Proof.
  destruct (to_16_loop_zeros 15 b) as [m Hm]. exists m.
  split; [exact Hm |].
  pose proof (to_16_loop_length 15 b) as Hl.
  assert (Ha : aligned (AESCrypto.to_16_loop 15 b) = true).
  { apply to_16_loop_aligned.
    pose proof (Nat.mod_upper_bound (length b) 16). lia. }
  rewrite Hm in Hl, Ha. rewrite length_app, repeat_length in Hl.
  split; [lia |]. unfold aligned in Ha. now apply Nat.eqb_eq in Ha.
Qed.

Lemma encode_ascii_text (s : str) :
  Forall (fun c => c < 128) s ->
  Utf8.encode s = Ok (map bchr s).
Proof.
  induction 1 as [| c r Hc _ IH]; cbn [Utf8.encode map]; [reflexivity |].
  unfold Utf8.encode_cp. resolve_cmp. cbn [Py.bind]. rewrite IH.
  reflexivity.
Qed.

Lemma init_key_eq (s : str) (b : bytes) :
  Utf8.encode (firstn 32 s) = Ok b ->
  AESCrypto.init (PStr s) = Ok {| AESCrypto.key := AESCrypto.to_16_loop 15 b |}.
Proof.
  intros Hb. unfold AESCrypto.init. cbn [py_len py_prefix].
  assert (E : (if (32 <? length s)%nat then PStr (firstn 32 s) else PStr s)
              = PStr (firstn 32 s)).
  { destruct (Nat.ltb_spec 32 (length s)); [reflexivity |].
    now rewrite firstn_all2. }
  rewrite E. unfold AESCrypto.to_16. cbn [py_bytes_utf8]. now rewrite Hb.
Qed.

(** X5: the key of [AESCrypto]: a [bytes] secret makes the construction
    raise [TypeError]; a text secret always builds a codec, whose key is
    the UTF-8 bytes of the first 32 characters followed by fewer than 16
    zero bytes, a multiple of 16 bytes in all. *)
Theorem ecb_init_key (key : pyval) :
  (forall b, key = PBytes b -> AESCrypto.init key = Raise TypeError) /\
  (forall s, key = PStr s -> unicode_text s ->
     exists self b m,
       AESCrypto.init key = Ok self /\
       Utf8.encode (firstn 32 s) = Ok b /\
       AESCrypto.key self = b ++ repeat x00 m /\
       (m < 16)%nat /\ (length (AESCrypto.key self) mod 16 = 0)%nat).
Proof.
  split.
  - intros b ->. unfold AESCrypto.init. cbn [py_len py_prefix].
    now destruct (32 <? length b)%nat.
  - intros s -> Hs.
    assert (Hs' : unicode_text (firstn 32 s)) by now apply Forall_firstn_of.
    apply encode_defined in Hs'. destruct Hs' as [b Hb].
    destruct (to_16_padding b) as (m & Hm & Hlt & Hmod).
    exists {| AESCrypto.key := AESCrypto.to_16_loop 15 b |}, b, m.
    split; [now apply init_key_eq |]. split; [exact Hb |].
    cbn [AESCrypto.key]. rewrite Hm. repeat split; assumption.
Qed.

(** X6: a secret of ASCII characters, not empty, gives a key that
    [AES.new] accepts: 16 bytes for 1 to 16 characters and 32 bytes
    from 17 characters on.  With the empty secret the key is empty, and
    [encrypt] and [decrypt] raise [ValueError] on every text. *)
Theorem ecb_ascii_key (s : str) :
  Forall (fun c => c < 128) s ->
  exists self,
    AESCrypto.init (PStr s) = Ok self /\
    (s <> [] -> AES_key_ok (AESCrypto.key self) = true) /\
    ((1 <= length s <= 16)%nat -> length (AESCrypto.key self) = 16%nat) /\
    ((17 <= length s)%nat -> length (AESCrypto.key self) = 32%nat) /\
    (s = [] ->
     forall (P : Primitives) (text : str),
       AESCrypto.encrypt self text = Raise ValueError /\
       AESCrypto.decrypt self text = Raise ValueError).
Proof.
  intros Hs.
  assert (Hb : Utf8.encode (firstn 32 s) = Ok (map bchr (firstn 32 s))).
  { apply encode_ascii_text. now apply Forall_firstn_of. }
  destruct (to_16_padding (map bchr (firstn 32 s))) as (m & Hm & Hlt & Hmod).
  eexists. split; [exact (init_key_eq s _ Hb) |].
  cbn [AESCrypto.key]. rewrite Hm in *.
  rewrite length_app, repeat_length, length_map, length_firstn in *.
  assert (Hlen : s <> [] ->
                 (Nat.min 32 (length s) + m = 16
                  \/ Nat.min 32 (length s) + m = 32)%nat).
  { intros Hne.
    assert (length s <> 0)%nat
      by (intros E; apply Hne; now apply length_zero_iff_nil).
    lia. }
  split; [| split; [| split]].
  - intros Hne. unfold AES_key_ok.
    rewrite length_app, repeat_length, length_map, length_firstn.
    destruct (Hlen Hne) as [-> | ->]; reflexivity.
  - intros H. lia.
  - intros H. lia.
  - intros -> P text. cbn [firstn map app length Nat.min] in *.
    assert (m = 0)%nat as -> by lia. cbn [repeat].
    split; reflexivity.
Qed.

(** X7: [process_key] is idempotent: the key it returns, given back as a
    [bytes] secret, is returned as it is; so a codec built from the key
    of another has the same key. *)
Theorem process_key_idempotent (key : pyval) (k : bytes) :
  AESCryptoGCM.process_key key = Ok k ->
  AESCryptoGCM.process_key (PBytes k) = Ok k /\
  AESCryptoGCM.init (PBytes k) = AESCryptoGCM.init key.
Proof.
  intros Hk. pose proof (process_key_length key k Hk) as Hl.
  assert (E : AESCryptoGCM.process_key (PBytes k) = Ok k).
  { unfold AESCryptoGCM.process_key. cbn [AESCryptoGCM.key_bytes Py.bind].
    rewrite (proj2 (Nat.leb_le 32 (length k))) by lia.
    f_equal. rewrite <- Hl. apply firstn_all. }
  split; [exact E |]. unfold AESCryptoGCM.init. now rewrite E, Hk.
Qed.

(** X8: [get_aes_crypto] with a [bytes] key: mode ['ECB'] raises
    [TypeError], mode ['GCM'] returns a codec with a 32-byte key. *)
Theorem get_aes_crypto_bytes_key (conf : settings) (b : bytes) :
  get_aes_crypto conf (Some (PBytes b)) "ECB"%string = Raise TypeError /\
  exists a,
    get_aes_crypto conf (Some (PBytes b)) "GCM"%string = Ok (GCM_object a)
    /\ length (AESCryptoGCM.key a) = 32%nat
    /\ firstn (Nat.min 32 (length b)) (AESCryptoGCM.key a) = firstn 32 b.
Proof.
  split.
  - unfold get_aes_crypto. cbn [String.eqb Ascii.eqb Bool.eqb].
    unfold AESCrypto.init. cbn [py_len py_prefix].
    now destruct (32 <? length b)%nat.
  - unfold get_aes_crypto. cbn [String.eqb Ascii.eqb Bool.eqb].
    unfold AESCryptoGCM.init.
    destruct (process_key_cases (PBytes b) b eq_refl) as [Hlong Hshort].
    destruct (Nat.le_gt_cases 32 (length b)) as [H | H].
    + rewrite (Hlong H). cbn [Py.bind]. eexists. split; [reflexivity |].
      cbn [AESCryptoGCM.key]. rewrite length_firstn.
      split; [lia |]. rewrite firstn_firstn.
      now rewrite !Nat.min_l by lia.
    + rewrite (Hshort H). cbn [Py.bind]. eexists. split; [reflexivity |].
      cbn [AESCryptoGCM.key]. rewrite length_app, repeat_length.
      split; [lia |].
      rewrite Nat.min_r by lia. rewrite firstn_exact by reflexivity.
      now rewrite firstn_all2 by lia.
Qed.

(** ** The GCM codec on every text *)

(** The decoder returns at most three bytes for four characters. *)
Lemma a2b_loop_length (l : bytes) (q lc pads : N) (out : bytes) :
  q <= 3 -> Base64.a2b_loop l q lc pads = Ok out ->
  (4 * length out
   <= 3 * length l + N.to_nat (if q =? 0 then 0 else 4 - q)%N)%nat.
Proof.
  revert q lc pads out.
  induction l as [| ch r IH]; intros q lc pads out Hq;
    cbn [Base64.a2b_loop length].
  - destruct (q =? 0); [| discriminate]. intros H. apply Ok_inj in H.
    subst out. cbn. lia.
  - destruct (ord ch =? ord Base64.PAD).
    + destruct ((2 <=? q) && (4 <=? q + (pads + 1))).
      * intros H. apply Ok_inj in H. subst out. cbn [length]. lia.
      * intros H. apply IH in H; [lia | exact Hq].
    + destruct (Base64.a2b_char ch) as [v |];
        [| intros H; apply IH in H; [lia | exact Hq]].
      destruct (N.eqb_spec q 0) as [-> | H0];
        [intros H; apply IH in H; [cbn in *; lia | lia] |].
      destruct (N.eqb_spec q 1) as [-> | H1];
        [| destruct (N.eqb_spec q 2) as [-> | H2]];
        unfold Base64.emit;
        match goal with
        | |- context [Base64.a2b_loop r ?a ?b ?c] =>
          specialize (IH a b c); destruct (Base64.a2b_loop r a b c) as [o |]
        end; cbn [Py.bind]; try discriminate;
        intros H; apply Ok_inj in H; subst out;
        specialize (IH o); cbn [length];
        try (assert (q = 3) as -> by lia); cbn in IH |- *; lia.
Qed.

Lemma encode_ascii_length (s : str) (b : bytes) :
  Utf8.encode_ascii s = Ok b -> length b = length s.
Proof.
  revert b. induction s as [| c r IH]; intros b; cbn [Utf8.encode_ascii].
  - intros H. apply Ok_inj in H. now subst b.
  - destruct (c <? 0x80); [| discriminate].
    destruct (Utf8.encode_ascii r) as [br |]; cbn [Py.bind]; [| discriminate].
    intros H. apply Ok_inj in H. subst b. cbn [length]. now rewrite (IH br).
Qed.

Lemma b64decode_length (s : str) (b : bytes) :
  Base64.b64decode s = Ok b -> (4 * length b <= 3 * length s)%nat.
Proof.
  unfold Base64.b64decode, Base64.a2b.
  destruct (Utf8.encode_ascii s) as [raw |] eqn:E; [| discriminate].
  intros H. apply a2b_loop_length in H; [| lia].
  rewrite (encode_ascii_length s raw E) in H. cbn in H. lia.
Qed.

Section GCMEveryText.

Context {P : Primitives} {L : PrimitivesLaws P}.

Implicit Types (self : AESCryptoGCM.t) (g : rng).

(** What a successful [decrypt] has read and checked. *)
Lemma gcm_decrypt_ok_inv self (text v : str) :
  AESCryptoGCM.decrypt self text = Ok v ->
  exists header nonce tag ciphertext,
    Base64.b64decode (firstn 24 (firstn 72 text)) = Ok header /\
    Base64.b64decode (slice 24 48 (firstn 72 text)) = Ok nonce /\
    Base64.b64decode (skipn 48 (firstn 72 text)) = Ok tag /\
    Base64.b64decode (skipn 72 text) = Ok ciphertext /\
    nonce <> [] /\
    tag = gcm_digest (AESCryptoGCM.key self) nonce header ciphertext /\
    Utf8.decode (gcm_decrypt_raw (AESCryptoGCM.key self) nonce ciphertext)
    = Ok v.
Proof.
  unfold AESCryptoGCM.decrypt.
  destruct (Base64.b64decode (firstn 24 (firstn 72 text))) as [header |];
    cbn [Py.bind]; [| discriminate].
  destruct (Base64.b64decode (slice 24 48 (firstn 72 text))) as [nonce |];
    cbn [Py.bind]; [| discriminate].
  destruct (Base64.b64decode (skipn 48 (firstn 72 text))) as [tag |];
    cbn [Py.bind]; [| discriminate].
  destruct (Base64.b64decode (skipn 72 text)) as [ct |];
    cbn [Py.bind]; [| discriminate].
  unfold AES.new_GCM. destruct nonce as [| n0 n']; [discriminate |].
  destruct (AES_key_ok _); cbn [Py.bind]; [| discriminate].
  unfold AES.decrypt_and_verify, AES.update.
  cbn [AES.gcm_key AES.nonce AES.assoc app].
  destruct (AES.bytes_eqb _ _) eqn:Eb; cbn [Py.bind]; [| discriminate].
  apply bytes_eqb_eq in Eb. intros H.
  exists header, (n0 :: n'), tag, ct. repeat split; try assumption.
  discriminate.
Qed.

(** [decrypt] raises when the tag slice cannot hold 16 bytes. *)
Lemma gcm_decrypt_rejects self (text : str) :
  (forall tag, Base64.b64decode (skipn 48 (firstn 72 text)) = Ok tag ->
               length tag <> 16%nat) ->
  exists e, AESCryptoGCM.decrypt self text = Raise e
            /\ isinstance e ValueError = true /\ Crypto.caught e = true.
Proof.
  intros Htag.
  destruct (AESCryptoGCM.decrypt self text) as [v | e] eqn:E.
  - exfalso. apply gcm_decrypt_ok_inv in E.
    destruct E as (header & nonce & tag & ct & _ & _ & Ht & _ & _ & Hd & _).
    apply (Htag tag Ht). rewrite Hd. apply gcm_digest_length.
  - exists e. split; [reflexivity |].
    apply gcm_decrypt_raises in E.
    destruct E as [-> | [-> | ->]]; split; reflexivity.
Qed.

(** X9: [decrypt] raises a [ValueError] (or a subclass) on every text
    of fewer than 70 characters, the empty text among them: the tag
    slice cannot hold the 16 bytes of a tag. *)
Theorem gcm_decrypt_short_text self (text : str) :
  (length text < 70)%nat ->
  exists e, AESCryptoGCM.decrypt self text = Raise e
            /\ isinstance e ValueError = true.
Proof.
  intros Hlen.
  destruct (gcm_decrypt_rejects self text) as (e & He & Hv & _).
  - intros tag Ht Hl. apply b64decode_length in Ht.
    rewrite length_skipn, length_firstn in Ht. lia.
  - now exists e.
Qed.

(** X10: [encrypt] returns an envelope exactly on the texts without a
    lone surrogate and raises [UnicodeEncodeError] on the others; in
    both cases the generator has given the header and the nonce, 32
    bytes, when the call ends. *)
Theorem gcm_encrypt_errors (key : pyval) self (text : str) g :
  AESCryptoGCM.init key = Ok self ->
  (unicode_text text <->
   exists envelope, fst (AESCryptoGCM.encrypt self text g) = Ok envelope) /\
  (~ unicode_text text <->
   fst (AESCryptoGCM.encrypt self text g) = Raise UnicodeEncodeError) /\
  snd (AESCryptoGCM.encrypt self text g) = after_draws g.
Proof.
  intros Hinit. pose proof (init_key_ok key self Hinit) as Hk.
  assert (Hgood : unicode_text text ->
                  exists envelope,
                    fst (AESCryptoGCM.encrypt self text g) = Ok envelope).
  { intros Ht. apply encode_defined in Ht. destruct Ht as [plain Hp].
    rewrite (gcm_encrypt_eq self text g plain Hk Hp). eexists. reflexivity. }
  assert (Hraw : AESCryptoGCM.encrypt self text g
                 = (match Utf8.encode text with
                    | Ok plain =>
                      Ok (envelope_of (drawn_header g) (drawn_nonce g)
                            (gcm_digest (AESCryptoGCM.key self) (drawn_nonce g)
                               (drawn_header g)
                               (gcm_encrypt_raw (AESCryptoGCM.key self)
                                  (drawn_nonce g) plain))
                            (gcm_encrypt_raw (AESCryptoGCM.key self)
                               (drawn_nonce g) plain))
                    | Raise e => Raise e
                    end, after_draws g)).
  { destruct (Utf8.encode text) as [plain | e] eqn:Ep.
    - exact (gcm_encrypt_eq self text g plain Hk Ep).
    - destruct (drawn_lengths g) as [_ Hn].
      unfold drawn_nonce, after_draws in *. unfold AESCryptoGCM.encrypt.
      destruct (get_random_bytes 16 g) as [h g1]. cbn [fst snd] in *.
      destruct (get_random_bytes 16 g1) as [n g2]. cbn [fst snd] in *.
      f_equal. unfold AES.new_GCM. rewrite Hk.
      destruct n as [| n0 n']; [discriminate |].
      cbn [Py.bind]. now rewrite Ep. }
  assert (Hbad : ~ unicode_text text ->
                 fst (AESCryptoGCM.encrypt self text g)
                 = Raise UnicodeEncodeError).
  { intros Hn. rewrite Hraw. cbn [fst].
    destruct (Utf8.encode text) as [plain | e] eqn:Ep.
    - exfalso. apply Hn. apply encode_defined. now exists plain.
    - now rewrite (encode_raises text e Ep). }
  split; [| split].
  - split; [exact Hgood |]. intros [envelope He].
    rewrite Hraw in He. cbn [fst] in He.
    destruct (Utf8.encode text) as [plain | e] eqn:Ep; [| discriminate].
    apply encode_defined. now exists plain.
  - split; [exact Hbad |]. intros He Ht.
    destruct (Hgood Ht) as [envelope Henv]. congruence.
  - now rewrite Hraw.
Qed.

End GCMEveryText.

(** ** One codec on the texts of the other *)

Lemma text64_app (a b : bytes) :
  (length a mod 3 = 0)%nat -> text64 (a ++ b) = text64 a ++ text64 b.
Proof.
  intros H. unfold text64. now rewrite b2a_app, map_app by exact H.
Qed.

(** The decoder stops at the padding of an encoding: what follows the
    encoding of bytes that are not whole groups of three is not read. *)
Lemma a2b_loop_tail1_app (v0 v1 : N) (a : byte) (rest : bytes) :
  v0 < 64 -> v1 < 64 -> v0 * 4 + v1 / 16 = ord a ->
  Base64.a2b_loop
    (Base64.b2a_char v0 :: Base64.b2a_char v1 :: Base64.PAD :: Base64.PAD
     :: rest) 0 0 0
  = Ok [a].
Proof.
  intros H0 H1 E.
  rewrite !a2b_loop_char, !a2b_loop_pad by assumption.
  cbn [N.eqb N.leb N.add N.compare Pos.compare Pos.compare_cont Pos.eqb
       Pos.add Pos.succ andb].
  rewrite E, bchr_ord. reflexivity.
Qed.

Lemma a2b_loop_tail2_app (v0 v1 v2 : N) (a b : byte) (rest : bytes) :
  v0 < 64 -> v1 < 64 -> v2 < 64 ->
  v0 * 4 + v1 / 16 = ord a -> v1 mod 16 * 16 + v2 / 4 = ord b ->
  Base64.a2b_loop
    (Base64.b2a_char v0 :: Base64.b2a_char v1 :: Base64.b2a_char v2
     :: Base64.PAD :: rest) 0 0 0
  = Ok [a; b].
Proof.
  intros H0 H1 H2 Ea Eb.
  rewrite !a2b_loop_char, !a2b_loop_pad by assumption.
  cbn [N.eqb N.leb N.add N.compare Pos.compare Pos.compare_cont Pos.eqb
       Pos.add Pos.succ andb].
  rewrite Ea, Eb, !bchr_ord. reflexivity.
Qed.

Lemma a2b_b2a_padded_app (l rest : bytes) :
  (length l mod 3 <> 0)%nat ->
  Base64.a2b (Base64.b2a l ++ rest) = Ok l.
Proof.
  unfold Base64.a2b.
  induction l as [| a | a b | a b c r IH] using list_ind3; intros H.
  - now elim H.
  - cbn [Base64.b2a app].
    destruct (sextet_bounds a a) as (H0 & _ & _ & _ & H1 & _).
    apply a2b_loop_tail1_app; try assumption.
    pose proof (ord_bound a). lia.
  - cbn [Base64.b2a app].
    destruct (sextet_bounds a b) as (H0 & H1 & _).
    destruct (sextet_bounds b b) as (_ & _ & _ & _ & _ & H2).
    apply a2b_loop_tail2_app; try assumption.
    + apply quad_first.
    + pose proof (ord_bound a). pose proof (ord_bound b). lia.
  - rewrite a2b_loop_b2a_cons3, IH; [reflexivity |].
    change (length (a :: b :: c :: r)) with (3 + length r)%nat in H.
    rewrite Nat.add_comm, <- (Nat.mul_1_l 3), Nat.Div0.mod_add in H.
    exact H.
Qed.

(** The decoder on bytes that it skips. *)
Lemma a2b_loop_skipped (l : bytes) (q lc pads : N) :
  Forall skipped_byte l ->
  Base64.a2b_loop l q lc pads = Base64.a2b_loop [] q lc pads.
Proof.
  induction 1 as [| b r [Hb Hp] _ IH]; [reflexivity |].
  cbn [Base64.a2b_loop]. rewrite (proj2 (N.eqb_neq _ _) Hp), Hb.
  exact IH.
Qed.

Lemma a2b_char_high (b : byte) : 128 <= ord b -> skipped_byte b.
Proof.
  intros H. split.
  - unfold Base64.a2b_char. cbv zeta. resolve_cmp. reflexivity.
  - rewrite ord_PAD. lia.
Qed.

Lemma encode_cp_skipped (c : N) (bc : bytes) :
  Utf8.encode_cp c = Ok bc -> skipped_cp c -> Forall skipped_byte bc.
Proof.
  unfold Utf8.encode_cp. intros H Hs.
  destruct (N.ltb_spec c 0x80).
  { apply Ok_inj in H. subst bc. destruct Hs as [Hs | Hs]; [lia |].
    apply Forall_cons; [exact Hs | apply Forall_nil]. }
  destruct (N.ltb_spec c 0x800).
  { apply Ok_inj in H. subst bc.
    repeat (apply Forall_cons;
            [apply a2b_char_high; rewrite ord_bchr by lia; lia |]).
    apply Forall_nil. }
  destruct (N.ltb_spec c 0x10000).
  { destruct ((0xD800 <=? c) && (c <=? 0xDFFF)); [discriminate |].
    apply Ok_inj in H. subst bc.
    repeat (apply Forall_cons;
            [apply a2b_char_high; rewrite ord_bchr by lia; lia |]).
    apply Forall_nil. }
  destruct (N.leb_spec c 0x10FFFF); [| discriminate].
  apply Ok_inj in H. subst bc.
  repeat (apply Forall_cons;
          [apply a2b_char_high; rewrite ord_bchr by lia; lia |]).
  apply Forall_nil.
Qed.

Lemma encode_skipped (s : str) (raw : bytes) :
  Utf8.encode s = Ok raw -> Forall skipped_cp s -> Forall skipped_byte raw.
Proof.
  revert raw. induction s as [| c r IH]; intros raw; cbn [Utf8.encode].
  - intros H _. apply Ok_inj in H. subst raw. constructor.
  - destruct (Utf8.encode_cp c) as [bc |] eqn:Ec; cbn [Py.bind];
      [| discriminate].
    destruct (Utf8.encode r) as [br |]; cbn [Py.bind]; [| discriminate].
    intros H Hs. apply Ok_inj in H. subst raw.
    inversion Hs as [| ? ? Hc Hr]; subst.
    apply Forall_app. split.
    + exact (encode_cp_skipped c bc Ec Hc).
    + now apply IH.
Qed.

Lemma b64decode_skipped (s : str) (b : bytes) :
  Forall skipped_cp s -> Base64.b64decode s = Ok b -> b = [].
Proof.
  intros Hs. unfold Base64.b64decode, Base64.a2b.
  destruct (Utf8.encode_ascii s) as [raw |] eqn:E; [| discriminate].
  assert (Hraw : Forall skipped_byte raw).
  { revert raw E. induction Hs as [| c r Hc _ IH]; intros raw;
      cbn [Utf8.encode_ascii].
    - intros H. apply Ok_inj in H. subst raw. constructor.
    - destruct (N.ltb_spec c 0x80) as [Hlt | Hge]; [| discriminate].
      destruct (Utf8.encode_ascii r) as [br |]; cbn [Py.bind];
        [| discriminate].
      intros H. apply Ok_inj in H. subst raw. constructor.
      + destruct Hc as [Hc | Hc]; [lia | exact Hc].
      + now apply IH. }
  rewrite (a2b_loop_skipped raw 0 0 0 Hraw). cbn. congruence.
Qed.

Section CrossCodecs.

Context {P : Primitives} {L : PrimitivesLaws P}.

Lemma ecb_raw_nil (k : bytes) :
  AES_key_ok k = true -> ecb_decrypt_raw k [] = [].
Proof.
  intros Hk.
  assert (E : ecb_encrypt_raw k [] = []).
  { apply length_zero_iff_nil. now rewrite ecb_length. }
  rewrite <- E at 1. now apply ecb_inverse.
Qed.

(** The GCM codec reads no 16-byte tag in the text of aligned bytes. *)
Lemma no_tag_in_aligned_text (d tag : bytes) :
  aligned d = true ->
  Base64.b64decode (skipn 48 (firstn 72 (text64 d))) = Ok tag ->
  length tag <> 16%nat.
Proof.
  intros Ha Ht. unfold aligned in Ha. apply Nat.eqb_eq in Ha.
  destruct (Nat.lt_ge_cases (length d) 54) as [Hshort | Hlong].
  - apply b64decode_length in Ht.
    rewrite length_skipn, length_firstn, text64_length in Ht.
    assert (length d <= 48)%nat by lia.
    assert ((length d + 2) / 3 <= 16)%nat by lia.
    lia.
  - rewrite <- (firstn_skipn 36 d) in Ht.
    rewrite <- (firstn_skipn 18 (skipn 36 d)) in Ht.
    set (d36 := firstn 36 d) in *.
    set (d18 := firstn 18 (skipn 36 d)) in *.
    set (rest := skipn 18 (skipn 36 d)) in *.
    assert (H36 : length d36 = 36%nat)
      by (unfold d36; rewrite length_firstn; lia).
    assert (H18 : length d18 = 18%nat)
      by (unfold d18; rewrite length_firstn, length_skipn; lia).
    rewrite !text64_app in Ht by (rewrite ?H36, ?H18; reflexivity).
    assert (T36 : length (text64 d36) = 48%nat)
      by (rewrite text64_length, H36; reflexivity).
    assert (T18 : length (text64 d18) = 24%nat)
      by (rewrite text64_length, H18; reflexivity).
    rewrite (app_assoc (text64 d36)) in Ht.
    rewrite firstn_exact in Ht by (rewrite length_app; lia).
    rewrite skipn_exact in Ht by exact T36.
    rewrite b64decode_text64 in Ht. apply Ok_inj in Ht. subst tag. lia.
Qed.

(** X11: after the method is switched from ['aes_ecb'] to ['aes'], the
    facade still reads what the ECB codec wrote: with the GCM codec
    first and the ECB codec second, [decrypt] returns the text (without
    its trailing NUL characters) for every text the ECB codec
    encrypted. *)
Theorem facade_reads_ecb_text (self : Crypto.t rng)
    (gcm : AESCryptoGCM.t) (ecb : AESCrypto.t) (others : list (codec rng))
    (p : str) :
  Crypto.methods self
  = AESCryptoGCM.as_codec gcm :: AESCrypto.as_codec ecb :: others ->
  AES_key_ok (AESCrypto.key ecb) = true -> unicode_text p ->
  exists c, AESCrypto.encrypt ecb p = Ok c /\
            (exists e, AESCryptoGCM.decrypt gcm c = Raise e) /\
            Crypto.decrypt self c = Ok (Some (rstrip_nul p)).
Proof.
  intros Hm Hk Hp. apply encode_defined in Hp. destruct Hp as [b Hb].
  destruct (ecb_encrypt_eq ecb p b Hk Hb) as (m & Ha & He).
  set (d := b ++ repeat x00 m) in *.
  set (ct := ecb_encrypt_raw (AESCrypto.key ecb) d) in *.
  assert (Hct : aligned ct = true).
  { unfold aligned, ct. rewrite ecb_length. exact Ha. }
  destruct (gcm_decrypt_rejects gcm (text64 ct)) as (e & Hgcm & _ & Hc).
  { intros tag. now apply no_tag_in_aligned_text. }
  exists (text64 ct). split; [exact He |]. split; [now exists e |].
  unfold Crypto.decrypt. rewrite Hm.
  cbn [Crypto.decrypt_loop AESCryptoGCM.as_codec AESCrypto.as_codec
       codec_decrypt].
  rewrite Hgcm, Hc. unfold ct.
  rewrite ecb_decrypt_text64 by assumption.
  unfold d. rewrite rstrip0_app_zeros.
  now rewrite (decode_encode _ _ (encode_rstrip p b Hb)).
Qed.

(** X12: the ECB codec on an envelope of the GCM codec reads the header
    alone: it returns what the ECB decryption of the 16 bytes of the
    header decodes to, whatever the nonce, the tag and the ciphertext;
    and a facade whose first codec is the ECB codec returns that text
    when there is one, without asking the GCM codec. *)
Theorem ecb_decrypt_of_envelope (ecb : AESCrypto.t)
    (header nonce tag ciphertext : bytes) :
  AES_key_ok (AESCrypto.key ecb) = true -> length header = 16%nat ->
  AESCrypto.decrypt ecb (envelope_of header nonce tag ciphertext)
  = Utf8.decode (rstrip0 (ecb_decrypt_raw (AESCrypto.key ecb) header)) /\
  forall (self : Crypto.t rng) others v,
    Crypto.methods self = AESCrypto.as_codec ecb :: others ->
    Utf8.decode (rstrip0 (ecb_decrypt_raw (AESCrypto.key ecb) header))
    = Ok v ->
    Crypto.decrypt self (envelope_of header nonce tag ciphertext)
    = Ok (Some v).
Proof.
  intros Hk Hh.
  assert (E : AESCrypto.decrypt ecb (envelope_of header nonce tag ciphertext)
              = Utf8.decode
                  (rstrip0 (ecb_decrypt_raw (AESCrypto.key ecb) header))).
  { unfold AESCrypto.decrypt, AESCrypto.aes, AES.new_ECB. rewrite Hk.
    cbn [Py.bind]. unfold envelope_of, text64. rewrite <- !map_app.
    rewrite encode_map_ord.
    - cbn [Py.bind]. unfold Base64.decodebytes.
      rewrite a2b_b2a_padded_app by (rewrite Hh; discriminate).
      cbn [Py.bind]. unfold AES.ecb_decrypt, aligned. rewrite Hh.
      reflexivity.
    - repeat (apply Forall_app; split);
        apply b64_chars_ascii, b2a_chars. }
  split; [exact E |].
  intros self others v Hm Hv. unfold Crypto.decrypt. rewrite Hm.
  cbn [Crypto.decrypt_loop AESCrypto.as_codec codec_decrypt].
  now rewrite E, Hv.
Qed.

(** X13: a text of characters that the base64 decoder skips, the empty
    text among them, is no error for the ECB codec, which returns the
    empty text; the GCM codec raises on it; so the facade with these two
    codecs first returns the empty text, not [None]. *)
Theorem skipped_text_decrypts_to_empty (ecb : AESCrypto.t)
    (gcm : AESCryptoGCM.t) (text : str) :
  AES_key_ok (AESCrypto.key ecb) = true ->
  unicode_text text -> Forall skipped_cp text ->
  AESCrypto.decrypt ecb text = Ok [] /\
  (exists e, AESCryptoGCM.decrypt gcm text = Raise e) /\
  forall (self : Crypto.t rng) others,
    Crypto.methods self
    = AESCryptoGCM.as_codec gcm :: AESCrypto.as_codec ecb :: others ->
    Crypto.decrypt self text = Ok (Some []).
Proof.
  intros Hk Ht Hs.
  assert (Hecb : AESCrypto.decrypt ecb text = Ok []).
  { apply encode_defined in Ht. destruct Ht as [raw Hraw].
    unfold AESCrypto.decrypt, AESCrypto.aes, AES.new_ECB. rewrite Hk.
    cbn [Py.bind]. rewrite Hraw. cbn [Py.bind].
    unfold Base64.decodebytes, Base64.a2b.
    rewrite (a2b_loop_skipped raw 0 0 0 (encode_skipped text raw Hraw Hs)).
    cbn [Base64.a2b_loop N.eqb Py.bind]. unfold AES.ecb_decrypt.
    cbn [aligned length Nat.modulo Nat.eqb Py.bind].
    rewrite ecb_raw_nil by exact Hk. reflexivity. }
  destruct (gcm_decrypt_rejects gcm text) as (e & Hgcm & _ & Hc).
  { intros tag Htag Hl.
    apply b64decode_skipped in Htag;
      [subst tag; discriminate |].
    now apply Forall_skipn_of, Forall_firstn_of. }
  split; [exact Hecb |]. split; [now exists e |].
  intros self others Hm. unfold Crypto.decrypt. rewrite Hm.
  cbn [Crypto.decrypt_loop AESCryptoGCM.as_codec AESCrypto.as_codec
       codec_decrypt].
  now rewrite Hgcm, Hc, Hecb.
Qed.

(** X14: a facade reads back what it wrote: when its first codec is a
    GCM codec, [decrypt] of what [encrypt] returned is the text, and
    when it is an ECB codec with a key that [AES.new] accepts, it is the
    text without its trailing NUL characters. *)
Theorem facade_roundtrip (self : Crypto.t rng) (others : list (codec rng))
    (text : str) (g : rng) :
  unicode_text text ->
  (forall key gcm,
     AESCryptoGCM.init key = Ok gcm ->
     Crypto.methods self = AESCryptoGCM.as_codec gcm :: others ->
     exists c, fst (Crypto.encrypt self text g) = Ok c /\
               Crypto.decrypt self c = Ok (Some text)) /\
  (forall ecb,
     AES_key_ok (AESCrypto.key ecb) = true ->
     Crypto.methods self = AESCrypto.as_codec ecb :: others ->
     exists c, fst (Crypto.encrypt self text g) = Ok c /\
               Crypto.decrypt self c = Ok (Some (rstrip_nul text))).
Proof.
  intros Ht. apply encode_defined in Ht. destruct Ht as [b Hb]. split.
  - intros key gcm Hinit Hm.
    pose proof (init_key_ok key gcm Hinit) as Hk.
    destruct (gcm_decrypt_encrypt gcm text g b Hk Hb) as (c & He & Hd).
    exists c. unfold Crypto.encrypt, Crypto.encryptor, Crypto.decrypt.
    rewrite Hm.
    cbn [Crypto.decrypt_loop AESCryptoGCM.as_codec codec_encrypt
         codec_decrypt].
    now rewrite He, Hd.
  - intros ecb Hk Hm.
    destruct (ecb_encrypt_eq ecb text b Hk Hb) as (m & Ha & He).
    eexists. unfold Crypto.encrypt, Crypto.encryptor, Crypto.decrypt.
    rewrite Hm.
    cbn [Crypto.decrypt_loop AESCrypto.as_codec codec_encrypt
         codec_decrypt fst].
    split; [exact He |].
    rewrite ecb_decrypt_text64 by assumption.
    rewrite rstrip0_app_zeros.
    now rewrite (decode_encode _ _ (encode_rstrip text b Hb)).
Qed.

End CrossCodecs.

(** ** The construction of the facade and of the module *)

Lemma pop_permutation {G} (name : String.string) (d d' : Crypto.dict G)
    (found : option (codec G)) :
  Crypto.pop name d = (found, d') ->
  match found with
  | Some c => Permutation (Crypto.values d) (c :: Crypto.values d')
              /\ In name (map fst d) /\ S (length d') = length d
  | None => ~ In name (map fst d)
  end.
Proof.
  revert d' found. induction d as [| [k v] r IH]; intros d' found;
    cbn [Crypto.pop].
  - intros [= <- <-]. tauto.
  - destruct (String.eqb_spec name k) as [-> | Hne].
    + intros [= <- <-]. cbn. auto.
    + destruct (Crypto.pop name r) as [o r'] eqn:E.
      specialize (IH r' o eq_refl). intros [= <- <-].
      destruct o as [c |].
      * destruct IH as (Hp & Hin & Hl). cbn. repeat split.
        -- rewrite Hp. apply perm_swap.
        -- now right.
        -- now rewrite Hl.
      * cbn. intros [F | F]; [now apply Hne | now apply IH].
Qed.

(** X15: the construction of the facade succeeds exactly when the
    configured name is a key of the mapping, and raises
    [ImproperlyConfigured] otherwise; the list it builds holds the
    codecs of the mapping, each as often as the mapping does: none is
    lost and none is added. *)
Theorem init_keeps_codecs {G} (d : Crypto.dict G) (conf : settings) :
  (In (SECURITY_DATA_CRYPTO_METHOD conf) (map fst d) <->
   exists self, Crypto.init d conf = Ok self) /\
  (forall self, Crypto.init d conf = Ok self ->
     Permutation (Crypto.values d) (Crypto.methods self) /\
     length (Crypto.methods self) = length d) /\
  (forall e, Crypto.init d conf = Raise e -> e = ImproperlyConfigured).
Proof.
  unfold Crypto.init.
  destruct (Crypto.pop (SECURITY_DATA_CRYPTO_METHOD conf) d) as [found d']
    eqn:E.
  apply pop_permutation in E. destruct found as [c |].
  - destruct E as (Hp & Hin & Hl). repeat split.
    + intros _. eexists. reflexivity.
    + intros _. exact Hin.
    + apply Ok_inj in H. subst self. exact Hp.
    + apply Ok_inj in H. subst self. cbn [Crypto.methods length].
      unfold Crypto.values. now rewrite length_map.
    + discriminate.
  - repeat split.
    + intros Hin. contradiction.
    + intros [self H]. discriminate.
    + discriminate.
    + discriminate.
    + intros e H. congruence.
Qed.

Section ModuleObjects.

Context {P : Primitives} {S : SM2Primitive rng}.

(** X16: importing the module with a text as [SECRET_KEY]: with the
    empty text the import raises [ImproperlyConfigured], as reading the
    setting does; with another text both AES codecs are built and
    [crypto] holds the three codecs, the configured one first and the
    others in the order [aes_ecb], [aes], [gm_sm2], while any other
    method name makes the import raise [ImproperlyConfigured]. *)
Theorem import_crypto_methods (conf : settings) (conf2 : sm2_settings)
    (s : str) :
  SECRET_KEY conf = PStr s -> unicode_text s ->
  (s = [] -> import_crypto conf conf2 = Raise ImproperlyConfigured) /\
  (s <> [] ->
   exists ecb gcm,
     get_aes_crypto conf None "ECB"%string = Ok (ECB_object ecb) /\
     get_aes_crypto conf None "GCM"%string = Ok (GCM_object gcm) /\
     let e := AESCrypto.as_codec ecb in
     let a := AESCryptoGCM.as_codec gcm in
     let m := GMSM2Crypto.as_codec (get_gm_sm2_crypto conf2) in
     let name := SECURITY_DATA_CRYPTO_METHOD conf in
     (name = "aes_ecb"%string ->
      import_crypto conf conf2 = Ok {| Crypto.methods := [e; a; m] |}) /\
     (name = "aes"%string ->
      import_crypto conf conf2 = Ok {| Crypto.methods := [a; e; m] |}) /\
     (name = "gm_sm2"%string ->
      import_crypto conf conf2 = Ok {| Crypto.methods := [m; e; a] |}) /\
     (name <> "aes_ecb"%string -> name <> "aes"%string ->
      name <> "gm_sm2"%string ->
      import_crypto conf conf2 = Raise ImproperlyConfigured)).
Proof.
  intros Hkey Hs. split.
  - intros ->. unfold import_crypto, settings_SECRET_KEY.
    now rewrite Hkey.
  - intros Hne.
    assert (Hread : settings_SECRET_KEY conf = Ok (PStr s)).
    { unfold settings_SECRET_KEY. rewrite Hkey. cbn [py_len].
      destruct s; [contradiction | reflexivity]. }
    assert (Hs32 : unicode_text (firstn 32 s))
      by now apply Forall_firstn_of.
    apply encode_defined in Hs32. destruct Hs32 as [b32 Hb32].
    destruct (gcm_init_defined (PStr s) Hs) as [gcm Hgcm].
    exists {| AESCrypto.key := AESCrypto.to_16_loop 15 b32 |}, gcm.
    assert (E1 : get_aes_crypto conf None "ECB"%string
                 = Ok (ECB_object
                         {| AESCrypto.key := AESCrypto.to_16_loop 15 b32 |})).
    { unfold get_aes_crypto. cbn [String.eqb Ascii.eqb Bool.eqb].
      now rewrite Hkey, (init_key_eq s b32 Hb32). }
    assert (E2 : get_aes_crypto conf None "GCM"%string
                 = Ok (GCM_object gcm)).
    { unfold get_aes_crypto. cbn [String.eqb Ascii.eqb Bool.eqb].
      now rewrite Hkey, Hgcm. }
    split; [exact E1 |]. split; [exact E2 |]. cbv zeta.
    unfold import_crypto. rewrite Hread, E1, E2. cbn [Py.bind aes_codec].
    unfold Crypto.init, Crypto.class_methods.
    repeat split.
    + intros ->. reflexivity.
    + intros ->. reflexivity.
    + intros ->. reflexivity.
    + intros H1 H2 H3. cbn [Crypto.pop].
      rewrite (proj2 (String.eqb_neq _ _) H1),
              (proj2 (String.eqb_neq _ _) H2),
              (proj2 (String.eqb_neq _ _) H3).
      reflexivity.
Qed.

(** X17: with a [bytes] value as [SECRET_KEY], whatever the configured
    method: the import raises [ImproperlyConfigured] when the value is
    empty, as reading the setting does, and [TypeError] otherwise, the
    ECB codec being built first, from the same key. *)
Theorem import_crypto_bytes_key (conf : settings) (conf2 : sm2_settings)
    (b : bytes) :
  SECRET_KEY conf = PBytes b ->
  (b = [] -> import_crypto conf conf2 = Raise ImproperlyConfigured) /\
  (b <> [] -> import_crypto conf conf2 = Raise TypeError).
Proof.
  intros Hkey. unfold import_crypto, settings_SECRET_KEY. rewrite Hkey.
  cbn [py_len]. split.
  - intros ->. reflexivity.
  - intros Hne. destruct b as [| b0 b']; [contradiction |].
    cbn [length Nat.eqb Py.bind]. unfold get_aes_crypto.
    cbn [String.eqb Ascii.eqb Bool.eqb]. rewrite Hkey.
    unfold AESCrypto.init. cbn [py_len py_prefix].
    now destruct (32 <? length (b0 :: b'))%nat.
Qed.

End ModuleObjects.

(** ** The SM2 codec *)

Lemma b2a_char_alphabet (i : N) :
  i < 64 ->
  let n := ord (Base64.b2a_char i) in
  (65 <= n <= 90) \/ (97 <= n <= 122) \/ (48 <= n <= 57)
  \/ n = 43 \/ n = 47.
Proof.
  intros H. cbv zeta. unfold Base64.b2a_char.
  destruct (N.ltb_spec i 26); [rewrite ord_bchr by lia; lia |].
  destruct (N.ltb_spec i 52); [rewrite ord_bchr by lia; lia |].
  destruct (N.ltb_spec i 62); [rewrite ord_bchr by lia; lia |].
  destruct (N.eqb_spec i 62); cbn; lia.
Qed.

Lemma b2a_alphabet (l : bytes) :
  Forall (fun b => let n := ord b in
                   (65 <= n <= 90) \/ (97 <= n <= 122) \/ (48 <= n <= 57)
                   \/ n = 43 \/ n = 47 \/ n = 61) (Base64.b2a l).
Proof.
  assert (Hc : forall i, i < 64 ->
               let n := ord (Base64.b2a_char i) in
               (65 <= n <= 90) \/ (97 <= n <= 122) \/ (48 <= n <= 57)
               \/ n = 43 \/ n = 47 \/ n = 61).
  { intros i Hi. pose proof (b2a_char_alphabet i Hi) as H. cbv zeta in *.
    tauto. }
  assert (Hp : let n := ord Base64.PAD in
               (65 <= n <= 90) \/ (97 <= n <= 122) \/ (48 <= n <= 57)
               \/ n = 43 \/ n = 47 \/ n = 61).
  { cbv zeta. rewrite ord_PAD. tauto. }
  induction l as [| a | a b | a b c r IH] using list_ind3; cbn [Base64.b2a].
  - constructor.
  - destruct (sextet_bounds a a) as (H0 & _ & _ & _ & H1 & _).
    repeat (apply Forall_cons; [solve [auto] |]). apply Forall_nil.
  - destruct (sextet_bounds a b) as (H0 & H1 & _).
    destruct (sextet_bounds b b) as (_ & _ & _ & _ & _ & H2).
    repeat (apply Forall_cons; [solve [auto] |]). apply Forall_nil.
  - destruct (sextet_bounds a b) as (H0 & H1 & _).
    destruct (sextet_bounds b c) as (_ & _ & H2 & _).
    destruct (sextet_bounds c c) as (_ & _ & _ & H3 & _).
    repeat (apply Forall_cons; [solve [auto] |]). exact IH.
Qed.

Lemma ord_translations :
  ord "-"%byte = 45 /\ ord "_"%byte = 95 /\ ord "+"%byte = 43
  /\ ord "/"%byte = 47.
Proof. repeat split. Qed.

(** The URL-safe coding: its characters, and its decoding. *)
Lemma urlsafe_encode_chars (l : bytes) :
  Forall (fun b => urlsafe_char (ord b)) (UrlSafe.urlsafe_b64encode l).
Proof.
  unfold UrlSafe.urlsafe_b64encode, Base64.b64encode.
  apply Forall_map. generalize (b2a_alphabet l). apply Forall_impl.
  intros b. cbv zeta. unfold UrlSafe.encode_translation, urlsafe_char.
  destruct ord_translations as (E1 & E2 & _).
  destruct (N.eqb_spec (ord b) 43); [rewrite E1; lia |].
  destruct (N.eqb_spec (ord b) 47); [rewrite E2; lia |].
  lia.
Qed.

Lemma urlsafe_decode_encode (l : bytes) :
  UrlSafe.urlsafe_b64decode (UrlSafe.urlsafe_b64encode l) = Ok l.
Proof.
  unfold UrlSafe.urlsafe_b64decode, UrlSafe.urlsafe_b64encode,
    Base64.b64encode.
  rewrite map_map.
  assert (E : map (fun b => UrlSafe.decode_translation
                              (UrlSafe.encode_translation b))
                  (Base64.b2a l) = Base64.b2a l).
  { rewrite <- (map_id (Base64.b2a l)) at 2.
    apply map_ext_Forall. generalize (b2a_alphabet l). apply Forall_impl.
    intros b. cbv zeta.
    unfold UrlSafe.decode_translation, UrlSafe.encode_translation.
    destruct ord_translations as (E1 & E2 & E3 & E4). intros H.
    destruct (N.eqb_spec (ord b) 43) as [Hb | Hb].
    - rewrite E1. cbn. apply ord_inj. now rewrite E3.
    - destruct (N.eqb_spec (ord b) 47) as [Hb' | Hb'].
      + rewrite E2. cbn. apply ord_inj. now rewrite E4.
      + destruct (N.eqb_spec (ord b) 45); [lia |].
        destruct (N.eqb_spec (ord b) 95); [lia |]. reflexivity. }
  rewrite E. apply a2b_b2a.
Qed.

Section SM2Facts.

Context {G : Type} {S : SM2Primitive G}.

(** X18: when the SM2 primitive decrypts with the private key what it
    encrypted with the public key, [GMSM2Crypto.decrypt] reads back the
    text that [encrypt] wrote; and what [encrypt] writes is made of the
    characters of the URL-safe alphabet and of the pad. *)
Theorem sm2_roundtrip (self : GMSM2Crypto.t) (text c : str) (g g' : G) :
  (forall data ct g0 g1,
     sm2_encrypt (GMSM2Crypto.public_key self) data g0 = (Ok (Some ct), g1) ->
     sm2_decrypt (GMSM2Crypto.private_key self) ct = Ok (Some data)) ->
  GMSM2Crypto.encrypt self text g = (Ok c, g') ->
  GMSM2Crypto.decrypt self c = Ok text /\ Forall urlsafe_char c.
Proof.
  intros Hlaw. unfold GMSM2Crypto.encrypt.
  destruct (Utf8.encode text) as [data |] eqn:Ed; [| intros [= ]].
  destruct (sm2_encrypt (GMSM2Crypto.public_key self) data g) as [r g1]
    eqn:Ee.
  destruct r as [[ct |] |]; cbn [Py.bind];
    [| intros H; discriminate H | intros H; discriminate H].
  pose proof (urlsafe_encode_chars ct) as Hchars.
  assert (Hascii : ascii_bytes (UrlSafe.urlsafe_b64encode ct)).
  { revert Hchars. apply Forall_impl. intros b. unfold urlsafe_char. lia. }
  rewrite (decode_ascii _ Hascii). intros H. injection H as <- <-.
  split.
  - unfold GMSM2Crypto.decrypt.
    rewrite (encode_map_ord _ Hascii). cbn [Py.bind].
    rewrite urlsafe_decode_encode. cbn [Py.bind].
    rewrite (Hlaw data ct g g1 Ee). cbn [Py.bind].
    now apply decode_encode.
  - apply Forall_map. exact Hchars.
Qed.

(** X19: when the SM2 primitive returns [None] for the bytes of a text,
    [GMSM2Crypto.decrypt] raises [AttributeError]; the facade does not
    catch this class: its [decrypt] raises it when the codecs before the
    SM2 codec have failed, and the codecs after it are not tried. *)
Theorem sm2_none_is_not_caught (sm2 : GMSM2Crypto.t) (text : str)
    (raw data : bytes) :
  Utf8.encode text = Ok raw ->
  UrlSafe.urlsafe_b64decode raw = Ok data ->
  sm2_decrypt (GMSM2Crypto.private_key sm2) data = Ok None ->
  GMSM2Crypto.decrypt sm2 text = Raise (OtherError "AttributeError"%string)
  /\ Crypto.caught (OtherError "AttributeError"%string) = false /\
  forall (self : Crypto.t G) tried others,
    Crypto.methods self = tried ++ GMSM2Crypto.as_codec sm2 :: others ->
    Forall (fun c => exists e, codec_decrypt c text = Raise e
                               /\ Crypto.caught e = true) tried ->
    Crypto.decrypt self text = Raise (OtherError "AttributeError"%string).
Proof.
  intros Hraw Hdata Hnone.
  assert (E : GMSM2Crypto.decrypt sm2 text
              = Raise (OtherError "AttributeError"%string)).
  { unfold GMSM2Crypto.decrypt. rewrite Hraw. cbn [Py.bind].
    rewrite Hdata. cbn [Py.bind]. now rewrite Hnone. }
  split; [exact E |]. split; [reflexivity |].
  intros self tried others Hm Htried. unfold Crypto.decrypt.
  rewrite Hm, decrypt_loop_skip by exact Htried.
  cbn [Crypto.decrypt_loop GMSM2Crypto.as_codec codec_decrypt].
  now rewrite E.
Qed.

End SM2Facts.

(** ** The further properties on the small instance *)

Lemma aes_decrypt_errors_caught_witness :
  isinstance binascii_Error ValueError = true
  /\ Crypto.caught binascii_Error = true.
Proof.
  apply (@aes_decrypt_errors_caught Toy.primitives
           (GCM_object Toy.aes_crypto) (Toy.text_of "A"%string)).
  vm_compute. reflexivity.
Defined.

Lemma aes_facade_decrypt_returns_witness :
  exists r, Crypto.decrypt ToySM2.aes_only (Toy.text_of "A"%string) = Ok r.
Proof.
  apply (@aes_facade_decrypt_returns Toy.primitives ToySM2.aes_only).
  apply Forall_cons; [eexists; reflexivity |].
  apply Forall_cons; [eexists; reflexivity |].
  apply Forall_nil.
Defined.

Lemma ecb_roundtrip_strips_nul_witness :
  exists c,
    @AESCrypto.encrypt Toy.primitives Toy.aes_ecb_crypto [104; 105; 0; 0]
    = Ok c /\
    @AESCrypto.decrypt Toy.primitives Toy.aes_ecb_crypto c
    = Ok (rstrip_nul [104; 105; 0; 0]).
Proof.
  apply (@ecb_roundtrip_strips_nul Toy.primitives toy_laws
           Toy.aes_ecb_crypto [104; 105; 0; 0]).
  - reflexivity.
  - repeat (apply Forall_cons; [unfold unicode_scalar; lia |]).
    apply Forall_nil.
Defined.

Lemma ecb_encrypt_errors_witness :
  ~ unicode_text [0xD800] <->
  @AESCrypto.encrypt Toy.primitives Toy.aes_ecb_crypto [0xD800]
  = Raise UnicodeEncodeError.
Proof.
  apply (proj1 (@ecb_encrypt_errors Toy.primitives Toy.aes_ecb_crypto
                  [0xD800])).
  reflexivity.
Defined.

Lemma ecb_init_key_witness :
  exists self b m,
    AESCrypto.init (PStr [104; 105]) = Ok self /\
    Utf8.encode (firstn 32 [104; 105]) = Ok b /\
    AESCrypto.key self = b ++ repeat x00 m /\
    (m < 16)%nat /\ (length (AESCrypto.key self) mod 16 = 0)%nat.
Proof.
  apply (proj2 (ecb_init_key (PStr [104; 105])) [104; 105]).
  - reflexivity.
  - repeat (apply Forall_cons; [unfold unicode_scalar; lia |]).
    apply Forall_nil.
Defined.

Lemma ecb_ascii_key_witness :
  exists self,
    AESCrypto.init (PStr [104; 105]) = Ok self /\
    ([104; 105] <> [] -> AES_key_ok (AESCrypto.key self) = true) /\
    ((1 <= length [104; 105] <= 16)%nat ->
     length (AESCrypto.key self) = 16%nat) /\
    ((17 <= length [104; 105])%nat ->
     length (AESCrypto.key self) = 32%nat) /\
    ([104; 105] = [] ->
     forall (P : Primitives) (text : str),
       AESCrypto.encrypt self text = Raise ValueError /\
       AESCrypto.decrypt self text = Raise ValueError).
Proof.
  apply (ecb_ascii_key [104; 105]).
  repeat (apply Forall_cons; [lia |]). apply Forall_nil.
Defined.

Lemma process_key_idempotent_witness :
  AESCryptoGCM.process_key (PBytes (x61 :: repeat x1f 31))
  = Ok (x61 :: repeat x1f 31) /\
  AESCryptoGCM.init (PBytes (x61 :: repeat x1f 31))
  = AESCryptoGCM.init (PStr [97]).
Proof.
  apply (process_key_idempotent (PStr [97]) (x61 :: repeat x1f 31)).
  reflexivity.
Defined.

Lemma gcm_decrypt_short_text_witness :
  exists e,
    @AESCryptoGCM.decrypt Toy.primitives Toy.aes_crypto
      (Toy.text_of "A"%string) = Raise e
    /\ isinstance e ValueError = true.
Proof.
  apply (@gcm_decrypt_short_text Toy.primitives toy_laws Toy.aes_crypto
           (Toy.text_of "A"%string)).
  simpl. lia.
Defined.

Lemma gcm_encrypt_errors_witness :
  (unicode_text [0xD800] <->
   exists envelope,
     fst (@AESCryptoGCM.encrypt Toy.primitives Toy.aes_crypto [0xD800] 65)
     = Ok envelope) /\
  (~ unicode_text [0xD800] <->
   fst (@AESCryptoGCM.encrypt Toy.primitives Toy.aes_crypto [0xD800] 65)
   = Raise UnicodeEncodeError) /\
  snd (@AESCryptoGCM.encrypt Toy.primitives Toy.aes_crypto [0xD800] 65)
  = @after_draws Toy.primitives 65.
Proof.
  apply (@gcm_encrypt_errors Toy.primitives toy_laws (SECRET_KEY Toy.conf)
           Toy.aes_crypto [0xD800] 65).
  reflexivity.
Defined.

Lemma facade_reads_ecb_text_witness :
  exists c,
    @AESCrypto.encrypt Toy.primitives Toy.aes_ecb_crypto
      (Toy.text_of "hello"%string) = Ok c /\
    (exists e, @AESCryptoGCM.decrypt Toy.primitives Toy.aes_crypto c
               = Raise e) /\
    Crypto.decrypt Toy.crypto c
    = Ok (Some (rstrip_nul (Toy.text_of "hello"%string))).
Proof.
  apply (@facade_reads_ecb_text Toy.primitives toy_laws Toy.crypto
           Toy.aes_crypto Toy.aes_ecb_crypto [Toy.gm_sm2_crypto]
           (Toy.text_of "hello"%string)).
  - reflexivity.
  - reflexivity.
  - unfold unicode_text.
    cbv [Toy.text_of String.list_byte_of_string map].
    repeat (apply Forall_cons; [unfold unicode_scalar, ord; cbn; lia |]).
    apply Forall_nil.
Defined.

Lemma ecb_decrypt_of_envelope_witness :
  @AESCrypto.decrypt Toy.primitives Toy.aes_ecb_crypto
    (envelope_of (repeat x41 16) (repeat x42 16) (repeat x43 16) [x44])
  = Utf8.decode
      (rstrip0 (@ecb_decrypt_raw Toy.primitives
                  (AESCrypto.key Toy.aes_ecb_crypto) (repeat x41 16))).
Proof.
  apply (proj1 (@ecb_decrypt_of_envelope Toy.primitives
                  Toy.aes_ecb_crypto (repeat x41 16) (repeat x42 16)
                  (repeat x43 16) [x44] eq_refl eq_refl)).
Defined.

Lemma skipped_text_decrypts_to_empty_witness :
  @AESCrypto.decrypt Toy.primitives Toy.aes_ecb_crypto [33; 33; 33] = Ok []
  /\ Crypto.decrypt Toy.crypto [33; 33; 33] = Ok (Some []).
Proof.
  destruct (@skipped_text_decrypts_to_empty Toy.primitives toy_laws
              Toy.aes_ecb_crypto Toy.aes_crypto [33; 33; 33])
    as (H1 & _ & H3).
  - reflexivity.
  - repeat (apply Forall_cons; [unfold unicode_scalar; lia |]).
    apply Forall_nil.
  - repeat (apply Forall_cons;
            [right; split; [reflexivity | vm_compute; discriminate] |]).
    apply Forall_nil.
  - split; [exact H1 |]. apply (H3 Toy.crypto [Toy.gm_sm2_crypto]).
    reflexivity.
Defined.

Lemma facade_roundtrip_witness :
  exists c,
    fst (Crypto.encrypt Toy.crypto (Toy.text_of "hello"%string) 65) = Ok c /\
    Crypto.decrypt Toy.crypto c = Ok (Some (Toy.text_of "hello"%string)).
Proof.
  destruct (@facade_roundtrip Toy.primitives toy_laws Toy.crypto
              [@AESCrypto.as_codec Toy.primitives Toy.aes_ecb_crypto;
               Toy.gm_sm2_crypto]
              (Toy.text_of "hello"%string) 65) as [H _].
  - unfold unicode_text.
    cbv [Toy.text_of String.list_byte_of_string map].
    repeat (apply Forall_cons; [unfold unicode_scalar, ord; cbn; lia |]).
    apply Forall_nil.
  - apply (H (SECRET_KEY Toy.conf) Toy.aes_crypto); reflexivity.
Defined.

Lemma init_keeps_codecs_witness :
  Permutation (Crypto.values Toy.methods) (Crypto.methods Toy.crypto) /\
  length (Crypto.methods Toy.crypto) = length Toy.methods.
Proof.
  apply (proj1 (proj2 (init_keeps_codecs Toy.methods Toy.conf)) Toy.crypto).
  reflexivity.
Defined.

Lemma import_crypto_methods_witness :
  exists ecb gcm,
    @import_crypto Toy.primitives ToySM2.primitive Toy.conf ToySM2.conf2
    = Ok {| Crypto.methods :=
              [@AESCryptoGCM.as_codec Toy.primitives gcm;
               @AESCrypto.as_codec Toy.primitives ecb;
               @GMSM2Crypto.as_codec N ToySM2.primitive
                 (get_gm_sm2_crypto ToySM2.conf2)] |}.
Proof.
  destruct (@import_crypto_methods Toy.primitives ToySM2.primitive
              Toy.conf ToySM2.conf2 (Toy.text_of "0123456789abcdef"%string))
    as (_ & H).
  - reflexivity.
  - unfold unicode_text.
    cbv [Toy.text_of String.list_byte_of_string map].
    repeat (apply Forall_cons; [unfold unicode_scalar, ord; cbn; lia |]).
    apply Forall_nil.
  - destruct H as (ecb & gcm & _ & _ & _ & H & _).
    + vm_compute. discriminate.
    + exists ecb, gcm. apply H. reflexivity.
Defined.

Lemma import_crypto_bytes_key_witness :
  @import_crypto Toy.primitives ToySM2.primitive
    {| SECRET_KEY := PBytes [x61];
       SECURITY_DATA_CRYPTO_METHOD := "aes"%string |} ToySM2.conf2
  = Raise TypeError.
Proof.
  apply (@import_crypto_bytes_key Toy.primitives ToySM2.primitive _
           ToySM2.conf2 [x61]).
  - reflexivity.
  - discriminate.
Defined.

Lemma sm2_roundtrip_witness :
  @GMSM2Crypto.decrypt N ToySM2.primitive (get_gm_sm2_crypto ToySM2.conf2)
    (Toy.text_of "b2xsZWg="%string)
  = Ok (Toy.text_of "hello"%string)
  /\ Forall urlsafe_char (Toy.text_of "b2xsZWg="%string).
Proof.
  apply (@sm2_roundtrip N ToySM2.primitive (get_gm_sm2_crypto ToySM2.conf2)
           (Toy.text_of "hello"%string) (Toy.text_of "b2xsZWg="%string)
           7 8).
  - intros data ct g0 g1 H. simpl in H. injection H as <- _.
    simpl. now rewrite rev_involutive.
  - vm_compute. reflexivity.
Defined.

Lemma sm2_none_is_not_caught_witness :
  @GMSM2Crypto.decrypt N ToySM2.rejecting (get_gm_sm2_crypto ToySM2.conf2)
    (Toy.text_of "b2xsZWg="%string)
  = Raise (OtherError "AttributeError"%string).
Proof.
  apply (@sm2_none_is_not_caught N ToySM2.rejecting
           (get_gm_sm2_crypto ToySM2.conf2) (Toy.text_of "b2xsZWg="%string)
           (String.list_byte_of_string "b2xsZWg="%string)
           (String.list_byte_of_string "olleh"%string)).
  - vm_compute. reflexivity.
  - vm_compute. reflexivity.
  - reflexivity.
Defined.
